(** * The example tick data provider of the Uniswap v3 quoting script

    A shallow embedding of [src/main.js]: the class
    [ExampleTickDataProvider] (constructor, [getTick],
    [nextInitializedTickWithinOneWord]) and the tick-fetching part of
    [fetchPoolData], followed by the properties of the tick index that the
    specification states.

    Conventions of the embedding.
    - JavaScript numbers that hold ticks are integers far inside the range
      where doubles are exact; they are modelled as [Z].
    - The object [ticks] is used as a map from tick to a per-tick record.
      Property names are the decimal renderings of the ticks, so the object
      is a finite map keyed by [Z]; every stored entry is an object, hence
      truthy.  A field of an entry may be missing ([JUndefined]).
    - The methods are [async]; they perform no I/O and are modelled as
      computations over the provider object, which they receive and hand
      back, so that a write to it would be visible.
    - The [while] and [for] loops take a fuel argument bounding the number
      of iterations of the body; [None] means the fuel ran out. *)

From Stdlib Require Import ZArith String DecimalString Lia.
From Stdlib Require DecimalPos DecimalZ.
From stdpp Require Import base option list gmap strings.

Local Open Scope string_scope.
Local Open Scope Z_scope.

(** ** JavaScript values held in the fields of a tick record *)

Inductive jsval : Type :=
| JUndefined
| JNumber (n : Z)
| JString (s : string).

(** [ToBoolean]: [undefined], [0] and the empty string are falsy. *)
Definition truthy (v : jsval) : bool :=
  match v with
  | JUndefined => false
  | JNumber n => negb (n =? 0)
  | JString s => negb (String.eqb s "")
  end.

(** [a || b] *)
Definition js_or (a b : jsval) : jsval := if truthy a then a else b.

(** The integer a field denotes: a number denotes itself, a decimal string
    the integer it spells. *)
Definition amount (v : jsval) : option Z :=
  match v with
  | JUndefined => None
  | JNumber n => Some n
  | JString s => Z.of_int <$> NilZero.int_of_string s
  end.

(** [BigNumber.toString()]: the decimal rendering of an integer. *)
Definition toString (z : Z) : string := NilZero.string_of_int (Z.to_int z).

(** ** Data model *)

(** A per-tick object [{ liquidityNet, liquidityGross }]. *)
Record TickInfo : Type := mkTickInfo {
  liquidityNet : jsval;
  liquidityGross : jsval
}.

(** The record with both amounts zero, as [getTick] builds it. *)
Definition zeroTickInfo : TickInfo :=
  {| liquidityNet := JString "0"; liquidityGross := JString "0" |}.

(** The instance state: the single field [this.ticks]. *)
Record ExampleTickDataProvider : Type := mkProvider {
  ticks : gmap Z TickInfo
}.

(** [TickMath.MIN_TICK] and [TickMath.MAX_TICK] of [@uniswap/v3-sdk]. *)
Definition MIN_TICK : Z := -887272.
Definition MAX_TICK : Z := 887272.

(** ** Outcomes of a [new] expression *)

Inductive completion (A : Type) : Type :=
| Returned (a : A)
| Threw (name : string).
Arguments Returned {A} a.
Arguments Threw {A} name.

(** [constructor(ticks) { this.ticks = ticks; }] *)
Definition constructor (ticks0 : gmap Z TickInfo)
  : completion ExampleTickDataProvider :=
  Returned {| ticks := ticks0 |}.

(** ** Computations over the provider object *)

Definition M (A : Type) : Type :=
  ExampleTickDataProvider -> A * ExampleTickDataProvider.

#[export] Instance M_ret : MRet M := fun A a this => (a, this).
#[export] Instance M_bind : MBind M :=
  fun A B f m this => let '(a, this') := m this in f a this'.

(** [this.ticks[k]] *)
Definition read_ticks (k : Z) : M (option TickInfo) :=
  fun this => (ticks this !! k, this).

(** [o?.f] *)
Definition opt_field (f : TickInfo -> jsval) (o : option TickInfo) : jsval :=
  match o with
  | Some r => f r
  | None => JUndefined
  end.

(** ** [getTick] *)

Definition getTick (tick : Z) : M TickInfo :=
  n ← read_ticks tick;
  g ← read_ticks tick;
  mret {| liquidityNet := js_or (opt_field liquidityNet n) (JString "0");
          liquidityGross := js_or (opt_field liquidityGross g) (JString "0") |}.

(** ** [nextInitializedTickWithinOneWord] *)

Definition in_range (t : Z) : bool := (MIN_TICK <=? t) && (t <=? MAX_TICK).

(** The [while] loop together with the [return] that follows it.  The flag
    [zeroForOne] selects the direction: [true] scans downward (the
    specification's "toward zero / lower"), [false] scans upward ("away from
    zero / higher"). *)
Fixpoint scan (fuel : nat) (zeroForOne : bool) (step nextTick : Z)
  : M (option (Z * bool)) :=
  if in_range nextTick then
    match fuel with
    | O => mret None
    | S fuel' =>
        e ← read_ticks nextTick;
        match e with
        | Some _ => mret (Some (nextTick, true))
        | None => scan fuel' zeroForOne step (nextTick + step)
        end
    end
  else mret (Some (if zeroForOne then MIN_TICK else MAX_TICK, false)).

Definition nextInitializedTickWithinOneWord
    (fuel : nat) (tick : Z) (zeroForOne : bool) (tickSpacing : Z)
  : M (option (Z * bool)) :=
  let step := if zeroForOne then - tickSpacing else tickSpacing in
  scan fuel zeroForOne step (tick + step).

(** A fuelled computation returns [r]: some amount of fuel is enough, and
    any larger amount gives the same result and leaves the object as it
    was. *)
Definition returns {A : Type} (c : nat -> M (option A))
    (this : ExampleTickDataProvider) (r : A) : Prop :=
  exists fuel : nat, forall fuel' : nat,
    (fuel <= fuel')%nat -> c fuel' this = (Some r, this).

(** A fuelled computation never returns: no amount of fuel is enough. *)
Definition diverges {A : Type} (c : nat -> M (option A))
    (this : ExampleTickDataProvider) : Prop :=
  forall fuel : nat, fst (c fuel this) = None.

(** ** [fetchPoolData] *)

(** What [pool.ticks(tick)] resolves to (the fields the script reads). *)
Record OnChainTick : Type := mkOnChainTick {
  oc_liquidityNet : Z;
  oc_initialized : bool
}.

(** The answers of the pool contract: [slot0().tick], [tickSpacing()], and
    [ticks(t)], where [None] is a rejected call. *)
Record Pool : Type := mkPool {
  pool_fee : Z;
  pool_sqrtPriceX96 : Z;
  pool_tick : Z;
  pool_liquidity : Z;
  pool_tickSpacing : Z;
  pool_ticks : Z -> option OnChainTick
}.

(** An element of [tickResults]: [{ tick, liquidityNet, initialized }], or
    [null] ([None]) when the call was rejected. *)
Record TickResult : Type := mkTickResult {
  tr_tick : Z;
  tr_liquidityNet : string;
  tr_initialized : bool
}.

Definition fetchTick (pool : Pool) (tick : Z) : option TickResult :=
  match pool_ticks pool tick with
  | Some tickData =>
      Some {| tr_tick := tick;
              tr_liquidityNet := toString (oc_liquidityNet tickData);
              tr_initialized := oc_initialized tickData |}
  | None => None
  end.

(** [for (let tick = startTick; tick <= endTick; tick += tickSpacing)] *)
Fixpoint fetchLoop (fuel : nat) (pool : Pool) (tick endTick tickSpacing : Z)
  : option (list (option TickResult)) :=
  if tick <=? endTick then
    match fuel with
    | O => None
    | S fuel' =>
        match fetchLoop fuel' pool (tick + tickSpacing) endTick tickSpacing with
        | Some rest => Some (fetchTick pool tick :: rest)
        | None => None
        end
    end
  else Some [].

(** The body of [for (const tickData of tickResults)]. *)
Definition collectTick (initializedTicks : gmap Z TickInfo)
    (tickData : option TickResult) : gmap Z TickInfo :=
  match tickData with
  | Some td =>
      if tr_initialized td then
        <[tr_tick td := {| liquidityNet := JString (tr_liquidityNet td);
                           liquidityGross := JUndefined |}]> initializedTicks
      else initializedTicks
  | None => initializedTicks
  end.

Definition collectTicks (tickResults : list (option TickResult))
  : gmap Z TickInfo :=
  foldl collectTick ∅ tickResults.

(** [Math.floor(currentTick / tickSpacing) * tickSpacing].  Both operands
    are [int24] values of the contract, for which the floor of the double
    quotient is the integer floor, [Z.div]; a zero spacing makes the product
    [NaN] ([None]). *)
Definition alignedTick (currentTick tickSpacing : Z) : option Z :=
  if tickSpacing =? 0 then None
  else Some (currentTick / tickSpacing * tickSpacing).

Definition startTick (currentTick tickSpacing tickRange : Z) : option Z :=
  (fun a => a - tickRange * tickSpacing) <$> alignedTick currentTick tickSpacing.

Definition endTick (currentTick tickSpacing tickRange : Z) : option Z :=
  (fun a => a + tickRange * tickSpacing) <$> alignedTick currentTick tickSpacing.

Record PoolData : Type := mkPoolData {
  pd_fee : Z;
  pd_sqrtPriceX96 : string;
  pd_tickCurrent : Z;
  pd_liquidity : string;
  pd_tickSpacing : Z;
  pd_zeroForOne : bool;
  pd_ticks : gmap Z TickInfo
}.

(** [fetchPoolData(provider, poolAddress, zeroForOne, tickRange)], given the
    answers of the contract at [poolAddress].  With a [NaN] start the loop
    condition is false at once. *)
Definition fetchPoolData (fuel : nat) (pool : Pool) (zeroForOne : bool)
    (tickRange : Z) : option PoolData :=
  let currentTick := pool_tick pool in
  let tickSpacing := pool_tickSpacing pool in
  let tickResults :=
    match startTick currentTick tickSpacing tickRange,
          endTick currentTick tickSpacing tickRange with
    | Some s, Some e => fetchLoop fuel pool s e tickSpacing
    | _, _ => Some []
    end in
  match tickResults with
  | Some results =>
      Some {| pd_fee := pool_fee pool;
              pd_sqrtPriceX96 := toString (pool_sqrtPriceX96 pool);
              pd_tickCurrent := currentTick;
              pd_liquidity := toString (pool_liquidity pool);
              pd_tickSpacing := tickSpacing;
              pd_zeroForOne := zeroForOne;
              pd_ticks := collectTicks results |}
  | None => None
  end.

(** [computeQuote] builds the provider from [poolData.ticks]. *)
Definition providerOf (poolData : PoolData)
  : completion ExampleTickDataProvider :=
  constructor (pd_ticks poolData).

(** [n] identical queries issued one after the other on the same object;
    the results are collected in order. *)
Fixpoint repeatM {A : Type} (n : nat) (q : M A) : M (list A) :=
  match n with
  | O => mret []
  | S n' => a ← q; rest ← repeatM n' q; mret (a :: rest)
  end.

(** The scenario of the specification: spacing 60, ticks -120 and 60.  The
    amounts are numbers when [asString] is false and decimal strings, the
    form in which the script carries them, when it is true. *)
Definition enc (asString : bool) (z : Z) : jsval :=
  if asString then JString (toString z) else JNumber z.

Definition scenarioTicks (asString : bool) : gmap Z TickInfo :=
  <[-120 := {| liquidityNet := enc asString 1000;
               liquidityGross := enc asString 1000 |}]>
  (<[60 := {| liquidityNet := enc asString (-1000);
              liquidityGross := enc asString 1000 |}]> ∅).

(** Both amounts of a record, read as integers. *)
Definition amounts (i : TickInfo) : option (Z * Z) :=
  match amount (liquidityNet i), amount (liquidityGross i) with
  | Some n, Some g => Some (n, g)
  | _, _ => None
  end.

(** The boundary returned after the loop. *)
Definition boundary (zeroForOne : bool) : Z :=
  if zeroForOne then MIN_TICK else MAX_TICK.

(** The signed step of the scan. *)
Definition stepOf (zeroForOne : bool) (tickSpacing : Z) : Z :=
  if zeroForOne then - tickSpacing else tickSpacing.

(** The candidates [t], [t + step], ... before the [k]-th are all inside the
    range and none of them is a key. *)
Definition passes (this : ExampleTickDataProvider) (step t : Z) (k : nat)
  : Prop :=
  forall j : nat, (j < k)%nat ->
    in_range (t + Z.of_nat j * step) = true /\
    ticks this !! (t + Z.of_nat j * step) = None.

(** The number of ticks of the range bounds the iterations. *)
Definition rangeFuel : nat := Z.to_nat (MAX_TICK - MIN_TICK + 1).

(** ** Concrete provider objects and pools used in the examples below *)

Definition sampleInfo : TickInfo :=
  {| liquidityNet := JString "1"; liquidityGross := JString "1" |}.

(** Keys 0 and 887280 = 60 * 14788; the second lies above [MAX_TICK]. *)
Definition farTicks : gmap Z TickInfo :=
  <[0 := sampleInfo]> (<[887280 := sampleInfo]> ∅).

(** One entry holding [liquidityNet] only, the shape [fetchPoolData]
    stores. *)
Definition netOnlyInfo : TickInfo :=
  {| liquidityNet := JString "5"; liquidityGross := JUndefined |}.

Definition netOnlyTicks : gmap Z TickInfo := <[60 := netOnlyInfo]> ∅.

(** The key 5, which is no multiple of 10. *)
Definition misalignedTicks : gmap Z TickInfo := <[5 := sampleInfo]> ∅.

(** The key -887220 = 60 * -14787, the lowest multiple of 60 inside the
    range. *)
Definition edgeTicks : gmap Z TickInfo := <[-887220 := sampleInfo]> ∅.

(** A pool at tick -74959 with spacing 60 whose tick -74940 is initialized
    and whose call for tick -75000 is rejected. *)
Definition examplePool : Pool :=
  {| pool_fee := 500;
     pool_sqrtPriceX96 := 1829744519839346889661884864;
     pool_tick := -74959;
     pool_liquidity := 3161000000;
     pool_tickSpacing := 60;
     pool_ticks := fun t =>
       if t =? -74940
       then Some {| oc_liquidityNet := 77; oc_initialized := true |}
       else if t =? -75000 then None
       else Some {| oc_liquidityNet := 0; oc_initialized := false |} |}.


(** The same pool, except that every rejected [ticks] call is answered
    with an uninitialized tick instead. *)
Definition uninitializedOnReject (pool : Pool) : Pool :=
  {| pool_fee := pool_fee pool;
     pool_sqrtPriceX96 := pool_sqrtPriceX96 pool;
     pool_tick := pool_tick pool;
     pool_liquidity := pool_liquidity pool;
     pool_tickSpacing := pool_tickSpacing pool;
     pool_ticks := fun t =>
       match pool_ticks pool t with
       | Some tickData => Some tickData
       | None => Some {| oc_liquidityNet := 0; oc_initialized := false |}
       end |}.

(** The number of ticks between [t] and [e] in steps of [ts]: the number of
    [ticks] calls the fetching loop issues for a positive spacing. *)
Definition iterations (t e ts : Z) : Z :=
  if t <=? e then (e - t) / ts + 1 else 0.

(** * Properties *)

(** ** Unfolding the computations *)

Lemma getTick_run (tick : Z) (this : ExampleTickDataProvider) :
  getTick tick this =
    ({| liquidityNet :=
          js_or (opt_field liquidityNet (ticks this !! tick)) (JString "0");
        liquidityGross :=
          js_or (opt_field liquidityGross (ticks this !! tick)) (JString "0") |},
     this).
Proof. reflexivity. Qed.

Lemma scan_run (fuel : nat) (z : bool) (step t : Z)
    (this : ExampleTickDataProvider) :
  scan fuel z step t this =
    if in_range t then
      match fuel with
      | O => (None, this)
      | S fuel' =>
          match ticks this !! t with
          | Some _ => (Some (t, true), this)
          | None => scan fuel' z step (t + step) this
          end
      end
    else (Some (boundary z, false), this).
Proof.
  destruct fuel as [|fuel']; simpl; destruct (in_range t); try reflexivity.
  unfold mbind, M_bind, read_ticks.
  destruct (ticks this !! t); reflexivity.
Qed.

Lemma next_run (fuel : nat) (tick : Z) (z : bool) (ts : Z)
    (this : ExampleTickDataProvider) :
  nextInitializedTickWithinOneWord fuel tick z ts this =
    scan fuel z (stepOf z ts) (tick + stepOf z ts) this.
Proof. reflexivity. Qed.

Lemma in_range_true (t : Z) :
  in_range t = true <-> MIN_TICK <= t <= MAX_TICK.
Proof. unfold in_range. rewrite andb_true_iff, !Z.leb_le. tauto. Qed.

Lemma in_range_false (t : Z) :
  in_range t = false <-> t < MIN_TICK \/ MAX_TICK < t.
Proof.
  unfold in_range. rewrite andb_false_iff, !Z.leb_gt. tauto.
Qed.

(** ** The scan leaves the object alone and is monotone in the fuel *)

Lemma scan_state (fuel : nat) (z : bool) (step t : Z)
    (this : ExampleTickDataProvider) :
  snd (scan fuel z step t this) = this.
Proof.
  revert t. induction fuel as [|fuel IH]; intros t; rewrite scan_run.
  - destruct (in_range t); reflexivity.
  - destruct (in_range t); [|reflexivity].
    destruct (ticks this !! t); [reflexivity|]. apply IH.
Qed.

Lemma scan_more_fuel (fuel fuel' : nat) (z : bool) (step t : Z)
    (this : ExampleTickDataProvider) (r : Z * bool) :
  fst (scan fuel z step t this) = Some r ->
  (fuel <= fuel')%nat ->
  scan fuel' z step t this = (Some r, this).
Proof.
  revert fuel' t. induction fuel as [|fuel IH]; intros fuel' t.
  - rewrite !scan_run. destruct (in_range t); simpl.
    + discriminate.
    + intros [= <-] _. reflexivity.
  - intros H Hle. destruct fuel' as [|fuel']; [lia|].
    rewrite scan_run in H. rewrite scan_run.
    destruct (in_range t); simpl in *.
    + destruct (ticks this !! t); simpl in *.
      * injection H as <-. reflexivity.
      * apply IH; [exact H | lia].
    + injection H as <-. reflexivity.
Qed.

Lemma returns_of_run (tick : Z) (z : bool) (ts : Z) (fuel : nat)
    (this : ExampleTickDataProvider) (r : Z * bool) :
  fst (nextInitializedTickWithinOneWord fuel tick z ts this) = Some r ->
  returns (fun f => nextInitializedTickWithinOneWord f tick z ts) this r.
Proof.
  intros H. exists fuel. intros fuel' Hle. rewrite next_run in *.
  eapply scan_more_fuel; eassumption.
Qed.

Lemma returns_unique {A : Type} (c : nat -> M (option A))
    (this : ExampleTickDataProvider) (r1 r2 : A) :
  returns c this r1 -> returns c this r2 -> r1 = r2.
Proof.
  intros [f1 H1] [f2 H2].
  specialize (H1 (f1 `max` f2)%nat ltac:(lia)).
  specialize (H2 (f1 `max` f2)%nat ltac:(lia)).
  congruence.
Qed.

Lemma returns_not_diverges {A : Type} (c : nat -> M (option A))
    (this : ExampleTickDataProvider) (r : A) :
  returns c this r -> ~ diverges c this.
Proof.
  intros [f H] D. specialize (H f ltac:(lia)). specialize (D f).
  rewrite H in D. discriminate.
Qed.

(** ** What the scan visits *)

Lemma passes_shift (this : ExampleTickDataProvider) (step t : Z) (k : nat) :
  passes this step t (S k) -> passes this step (t + step) k.
Proof.
  intros H j Hj. specialize (H (S j) ltac:(lia)).
  replace (t + step + Z.of_nat j * step) with (t + Z.of_nat (S j) * step)
    by lia.
  exact H.
Qed.

Lemma passes_unshift (this : ExampleTickDataProvider) (step t : Z) (k : nat) :
  in_range t = true -> ticks this !! t = None ->
  passes this step (t + step) k -> passes this step t (S k).
Proof.
  intros Hr Hn H [|j] Hj.
  - replace (t + Z.of_nat 0 * step) with t by lia. auto.
  - specialize (H j ltac:(lia)).
    replace (t + Z.of_nat (S j) * step) with (t + step + Z.of_nat j * step)
      by lia.
    exact H.
Qed.

Lemma scan_finds (k fuel : nat) (z : bool) (step t : Z)
    (this : ExampleTickDataProvider) :
  passes this step t k ->
  in_range (t + Z.of_nat k * step) = true ->
  is_Some (ticks this !! (t + Z.of_nat k * step)) ->
  (k < fuel)%nat ->
  scan fuel z step t this = (Some (t + Z.of_nat k * step, true), this).
Proof.
  revert fuel t. induction k as [|k IH]; intros fuel t Hp Hr [i Hi] Hf;
    (destruct fuel as [|fuel]; [lia|]); rewrite scan_run.
  - replace (t + Z.of_nat 0 * step) with t in * by lia.
    rewrite Hr, Hi. reflexivity.
  - destruct (Hp O ltac:(lia)) as [Hr0 Hn0].
    replace (t + Z.of_nat 0 * step) with t in * by lia.
    rewrite Hr0, Hn0.
    replace (t + Z.of_nat (S k) * step) with (t + step + Z.of_nat k * step)
      in * by lia.
    apply IH; [apply passes_shift; exact Hp | exact Hr | eauto | lia].
Qed.

Lemma scan_leaves (k fuel : nat) (z : bool) (step t : Z)
    (this : ExampleTickDataProvider) :
  passes this step t k ->
  in_range (t + Z.of_nat k * step) = false ->
  (k <= fuel)%nat ->
  scan fuel z step t this = (Some (boundary z, false), this).
Proof.
  revert fuel t. induction k as [|k IH]; intros fuel t Hp Hr Hf;
    rewrite scan_run.
  - replace (t + Z.of_nat 0 * step) with t in * by lia.
    rewrite Hr. reflexivity.
  - destruct fuel as [|fuel]; [lia|].
    destruct (Hp O ltac:(lia)) as [Hr0 Hn0].
    replace (t + Z.of_nat 0 * step) with t in * by lia.
    rewrite Hr0, Hn0.
    replace (t + Z.of_nat (S k) * step) with (t + step + Z.of_nat k * step)
      in * by lia.
    apply IH; [apply passes_shift; exact Hp | exact Hr | lia].
Qed.

(** Every result of the scan arises in one of the two ways above. *)
Lemma scan_inv (fuel : nat) (z : bool) (step t : Z)
    (this : ExampleTickDataProvider) (r : Z * bool) :
  fst (scan fuel z step t this) = Some r ->
  exists k : nat,
    passes this step t k /\
    ((r = (t + Z.of_nat k * step, true) /\
      in_range (t + Z.of_nat k * step) = true /\
      is_Some (ticks this !! (t + Z.of_nat k * step)))
     \/
     (r = (boundary z, false) /\
      in_range (t + Z.of_nat k * step) = false)).
Proof.
  revert t. induction fuel as [|fuel IH]; intros t; rewrite scan_run.
  - destruct (in_range t) eqn:Hr; simpl; [discriminate|].
    intros [= <-]. exists O. split; [intros j Hj; lia|].
    right. replace (t + Z.of_nat 0 * step) with t by lia. auto.
  - destruct (in_range t) eqn:Hr; simpl.
    + destruct (ticks this !! t) as [i|] eqn:Hl; simpl.
      * intros [= <-]. exists O. split; [intros j Hj; lia|].
        left. replace (t + Z.of_nat 0 * step) with t by lia.
        rewrite Hl. eauto.
      * intros H. destruct (IH _ H) as (k & Hp & Hk).
        exists (S k). split; [apply passes_unshift; assumption|].
        replace (t + Z.of_nat (S k) * step)
          with (t + step + Z.of_nat k * step) by lia.
        exact Hk.
    + intros [= <-]. exists O. split; [intros j Hj; lia|].
      right. replace (t + Z.of_nat 0 * step) with t by lia. auto.
Qed.

(** ** Termination of the scan *)

Lemma scan_up_terminates (fuel : nat) (z : bool) (step t : Z)
    (this : ExampleTickDataProvider) :
  1 <= step -> MAX_TICK - t < Z.of_nat fuel ->
  exists r, scan fuel z step t this = (Some r, this).
Proof.
  intros Hs. revert t. induction fuel as [|fuel IH]; intros t Hf;
    rewrite scan_run; destruct (in_range t) eqn:Hr; eauto.
  - apply in_range_true in Hr. lia.
  - destruct (ticks this !! t); eauto. apply IH. lia.
Qed.

Lemma scan_down_terminates (fuel : nat) (z : bool) (step t : Z)
    (this : ExampleTickDataProvider) :
  step <= -1 -> t - MIN_TICK < Z.of_nat fuel ->
  exists r, scan fuel z step t this = (Some r, this).
Proof.
  intros Hs. revert t. induction fuel as [|fuel IH]; intros t Hf;
    rewrite scan_run; destruct (in_range t) eqn:Hr; eauto.
  - apply in_range_true in Hr. lia.
  - destruct (ticks this !! t); eauto. apply IH. lia.
Qed.

Lemma scan_terminates (fuel : nat) (z : bool) (step t : Z)
    (this : ExampleTickDataProvider) :
  step <> 0 -> (rangeFuel <= fuel)%nat ->
  exists r, scan fuel z step t this = (Some r, this).
Proof.
  intros Hs Hf.
  destruct (in_range t) eqn:Hr.
  - apply in_range_true in Hr.
    assert (MAX_TICK - MIN_TICK + 1 <= Z.of_nat fuel).
    { unfold rangeFuel in Hf. unfold MAX_TICK, MIN_TICK in *. lia. }
    destruct (Z_lt_le_dec step 0).
    + apply scan_down_terminates; lia.
    + apply scan_up_terminates; lia.
  - rewrite scan_run, Hr. eauto.
Qed.

Lemma next_terminates (tick : Z) (z : bool) (ts : Z)
    (this : ExampleTickDataProvider) :
  ts <> 0 ->
  exists r, returns (fun f => nextInitializedTickWithinOneWord f tick z ts)
              this r.
Proof.
  intros Hts.
  destruct (scan_terminates rangeFuel z (stepOf z ts) (tick + stepOf z ts) this)
    as [r Hr]; [destruct z; simpl; lia | lia |].
  exists r. apply (returns_of_run _ _ _ rangeFuel).
  rewrite next_run, Hr. reflexivity.
Qed.

(** With a zero step the candidate never moves. *)
Lemma scan_stuck (fuel : nat) (z : bool) (t : Z)
    (this : ExampleTickDataProvider) :
  in_range t = true -> ticks this !! t = None ->
  fst (scan fuel z 0 t this) = None.
Proof.
  intros Hr Hn. induction fuel as [|fuel IH]; rewrite scan_run, Hr.
  - reflexivity.
  - rewrite Hn. replace (t + 0) with t by lia. exact IH.
Qed.

(** ** Results of [nextInitializedTickWithinOneWord] *)

(** The result, read off the candidates [tick + j * step], [j >= 1]. *)
Lemma next_inv (tick : Z) (z : bool) (ts : Z)
    (this : ExampleTickDataProvider) (r : Z * bool) :
  returns (fun f => nextInitializedTickWithinOneWord f tick z ts) this r ->
  exists k : Z, 1 <= k /\
    (forall j : Z, 1 <= j < k ->
       in_range (tick + j * stepOf z ts) = true /\
       ticks this !! (tick + j * stepOf z ts) = None) /\
    ((r = (tick + k * stepOf z ts, true) /\
      in_range (tick + k * stepOf z ts) = true /\
      is_Some (ticks this !! (tick + k * stepOf z ts)))
     \/
     (r = (boundary z, false) /\
      in_range (tick + k * stepOf z ts) = false)).
Proof.
  intros [fuel H]. specialize (H fuel ltac:(lia)). rewrite next_run in H.
  destruct (scan_inv fuel z (stepOf z ts) (tick + stepOf z ts) this r)
    as (k & Hp & Hk); [rewrite H; reflexivity|].
  exists (Z.of_nat (S k)).
  replace (tick + Z.of_nat (S k) * stepOf z ts)
    with (tick + stepOf z ts + Z.of_nat k * stepOf z ts) by lia.
  split; [lia|]. split; [|exact Hk].
  intros j Hj. specialize (Hp (Z.to_nat (j - 1)) ltac:(lia)).
  replace (tick + stepOf z ts + Z.of_nat (Z.to_nat (j - 1)) * stepOf z ts)
    with (tick + j * stepOf z ts) in Hp by (rewrite Z2Nat.id by lia; ring).
  exact Hp.
Qed.

Lemma next_up_adjacent (this : ExampleTickDataProvider) (ts t1 t2 : Z) :
  1 <= ts -> (ts | t1) -> (ts | t2) -> t1 < t2 ->
  MIN_TICK <= t1 -> t2 <= MAX_TICK ->
  is_Some (ticks this !! t2) ->
  (forall t, t1 < t < t2 -> ticks this !! t = None) ->
  returns (fun f => nextInitializedTickWithinOneWord f t1 false ts)
    this (t2, true).
Proof.
  intros Hts [a ->] [b ->] Hlt Hlo Hhi Hk2 Hgap.
  assert (a < b) by nia.
  exists (S (Z.to_nat (b - a - 1))). intros fuel Hf. rewrite next_run.
  simpl stepOf.
  replace (b * ts) with (a * ts + ts + Z.of_nat (Z.to_nat (b - a - 1)) * ts)
    in * by (rewrite Z2Nat.id by lia; ring).
  apply scan_finds; [|apply in_range_true; rewrite Z2Nat.id by lia; nia
                     |assumption|lia].
  intros j Hj. rewrite Z2Nat.id in Hgap by lia.
  assert (Z.of_nat j < b - a - 1) by lia.
  split; [apply in_range_true|apply Hgap]; nia.
Qed.

Lemma next_down_adjacent (this : ExampleTickDataProvider) (ts t1 t2 : Z) :
  1 <= ts -> (ts | t1) -> (ts | t2) -> t1 < t2 ->
  MIN_TICK <= t1 -> t2 <= MAX_TICK ->
  is_Some (ticks this !! t1) ->
  (forall t, t1 < t < t2 -> ticks this !! t = None) ->
  returns (fun f => nextInitializedTickWithinOneWord f t2 true ts)
    this (t1, true).
Proof.
  intros Hts [a ->] [b ->] Hlt Hlo Hhi Hk1 Hgap.
  assert (a < b) by nia.
  exists (S (Z.to_nat (b - a - 1))). intros fuel Hf. rewrite next_run.
  simpl stepOf.
  replace (a * ts)
    with (b * ts + - ts + Z.of_nat (Z.to_nat (b - a - 1)) * - ts) in *
    by (rewrite Z2Nat.id by lia; ring).
  apply scan_finds; [|apply in_range_true; rewrite Z2Nat.id by lia; nia
                     |assumption|lia].
  intros j Hj. rewrite Z2Nat.id in Hgap by lia.
  assert (Z.of_nat j < b - a - 1) by lia.
  split; [apply in_range_true|apply Hgap]; nia.
Qed.

(** When the first candidate is already outside the range the loop body
    never runs. *)
Lemma next_first_candidate_outside (tick : Z) (z : bool) (ts : Z)
    (this : ExampleTickDataProvider) :
  in_range (tick + stepOf z ts) = false ->
  returns (fun f => nextInitializedTickWithinOneWord f tick z ts)
    this (boundary z, false).
Proof.
  intros Hr. exists O. intros fuel _. rewrite next_run, scan_run, Hr.
  reflexivity.
Qed.

(** No key on the far side of the start: the scan runs off the range. *)
Lemma next_no_key_beyond (tick : Z) (z : bool) (ts : Z)
    (this : ExampleTickDataProvider) :
  1 <= ts ->
  (forall k, is_Some (ticks this !! k) ->
     if z then tick <= k else k <= tick) ->
  returns (fun f => nextInitializedTickWithinOneWord f tick z ts)
    this (boundary z, false).
Proof.
  intros Hts Hnone.
  destruct (next_terminates tick z ts this) as [r Hr]; [lia|].
  destruct (next_inv _ _ _ _ _ Hr) as (k & Hk & _ & [(-> & _ & Hs) | (-> & _)]);
    [|exact Hr].
  exfalso. specialize (Hnone _ Hs). destruct z; simpl in Hnone; nia.
Qed.

(** ** Claims about [nextInitializedTickWithinOneWord] *)

(** C1, as stated, fails: with keys 0 and 887280 (both multiples of 60, no
    key between them) the scan from 0 upward leaves the range before it
    reaches 887280 and returns [(MAX_TICK, false)], not [(887280, true)]. *)
Lemma adjacent_keys_outside_range_missed :
  (60 | 0) /\ (60 | 887280) /\ 0 < 887280 /\
  is_Some (farTicks !! 0) /\ is_Some (farTicks !! 887280) /\
  (forall t, 0 < t < 887280 -> farTicks !! t = None) /\
  returns (fun f => nextInitializedTickWithinOneWord f 0 false 60)
    (mkProvider farTicks) (MAX_TICK, false) /\
  ~ returns (fun f => nextInitializedTickWithinOneWord f 0 false 60)
      (mkProvider farTicks) (887280, true).
Proof.
  assert (R : returns (fun f => nextInitializedTickWithinOneWord f 0 false 60)
                (mkProvider farTicks) (MAX_TICK, false)).
  { apply (returns_of_run _ _ _ (Z.to_nat 20000)). vm_compute. reflexivity. }
  repeat split.
  - exists 0. reflexivity.
  - exists 14788. reflexivity.
  - unfold farTicks. rewrite lookup_insert_eq. eauto.
  - unfold farTicks. rewrite lookup_insert_ne, lookup_insert_eq by lia. eauto.
  - intros t Ht. unfold farTicks.
    rewrite !lookup_insert_ne by lia. apply lookup_empty.
  - exact R.
  - intros R'. pose proof (returns_unique _ _ _ _ R R') as E.
    vm_compute in E. discriminate.
Qed.

(** C1 (amended): let the spacing be at least 1.  For keys [t1 < t2], both
    multiples of the spacing and both inside [[MIN_TICK, MAX_TICK]], with no
    key strictly between them, the upward query from [t1] returns
    [(t2, true)] and the downward query from [t2] returns [(t1, true)].  In
    general the result is read off the candidates [tick + j * step] for
    [j = 1, 2, ...]: every candidate before the [k]-th is inside the range
    and no key, and the [k]-th is either the first key met, returned with
    [true] and different from [tick], or the first candidate outside the
    range, in which case the boundary is returned with [false]. *)
Theorem next_steps_to_adjacent_key
    (this : ExampleTickDataProvider) (ts : Z) :
  1 <= ts ->
  (forall t1 t2 : Z,
     (ts | t1) -> (ts | t2) -> t1 < t2 ->
     MIN_TICK <= t1 -> t2 <= MAX_TICK ->
     is_Some (ticks this !! t1) -> is_Some (ticks this !! t2) ->
     (forall t, t1 < t < t2 -> ticks this !! t = None) ->
     returns (fun f => nextInitializedTickWithinOneWord f t1 false ts)
       this (t2, true) /\
     returns (fun f => nextInitializedTickWithinOneWord f t2 true ts)
       this (t1, true))
  /\
  (forall (tick : Z) (z : bool) (r : Z * bool),
     returns (fun f => nextInitializedTickWithinOneWord f tick z ts) this r ->
     exists k : Z, 1 <= k /\
       (forall j : Z, 1 <= j < k ->
          in_range (tick + j * stepOf z ts) = true /\
          ticks this !! (tick + j * stepOf z ts) = None) /\
       ((r = (tick + k * stepOf z ts, true) /\
         in_range (tick + k * stepOf z ts) = true /\
         is_Some (ticks this !! (tick + k * stepOf z ts)) /\
         fst r <> tick)
        \/
        (r = (boundary z, false) /\
         in_range (tick + k * stepOf z ts) = false))).
Proof.
  intros Hts. split.
  - intros t1 t2 D1 D2 Hlt Hlo Hhi K1 K2 Hgap. split.
    + apply next_up_adjacent; assumption.
    + apply next_down_adjacent; assumption.
  - intros tick z r Hr.
    destruct (next_inv _ _ _ _ _ Hr) as (k & Hk & Hp & Hcase).
    exists k. split; [exact Hk|]. split; [exact Hp|].
    destruct Hcase as [(-> & Hin & Hs) | Hout]; [left | right; exact Hout].
    repeat split; try assumption.
    simpl. destruct z; simpl; nia.
Qed.

Lemma next_steps_to_adjacent_key_witness :
  returns (fun f => nextInitializedTickWithinOneWord f (-120) false 60)
    (mkProvider (scenarioTicks true)) (60, true) /\
  returns (fun f => nextInitializedTickWithinOneWord f 60 true 60)
    (mkProvider (scenarioTicks true)) (-120, true).
Proof.
  apply (next_steps_to_adjacent_key (mkProvider (scenarioTicks true)) 60);
    simpl ticks; unfold scenarioTicks.
  - lia.
  - exists (-2). reflexivity.
  - exists 1. reflexivity.
  - lia.
  - unfold MIN_TICK. lia.
  - unfold MAX_TICK. lia.
  - rewrite lookup_insert_eq. eauto.
  - rewrite lookup_insert_ne, lookup_insert_eq by lia. eauto.
  - intros t Ht. rewrite !lookup_insert_ne by lia. apply lookup_empty.
Defined.

(** C3: for a spacing of at least 1 and a start inside the range, when no
    key lies strictly beyond the start in the direction of the query, the
    result is [(MIN_TICK, false)] for a downward query and
    [(MAX_TICK, false)] for an upward one. *)
Theorem next_beyond_outermost_key
    (this : ExampleTickDataProvider) (tick : Z) (zeroForOne : bool) (ts : Z) :
  1 <= ts ->
  in_range tick = true ->
  (forall k, is_Some (ticks this !! k) ->
     if zeroForOne then tick <= k else k <= tick) ->
  returns (fun f => nextInitializedTickWithinOneWord f tick zeroForOne ts)
    this (if zeroForOne then MIN_TICK else MAX_TICK, false).
Proof.
  intros Hts _ Hnone. apply (next_no_key_beyond tick zeroForOne ts this Hts Hnone).
Qed.

Lemma next_beyond_outermost_key_witness :
  returns (fun f => nextInitializedTickWithinOneWord f 60 false 60)
    (mkProvider (scenarioTicks true)) (MAX_TICK, false).
Proof.
  apply (next_beyond_outermost_key (mkProvider (scenarioTicks true)) 60 false 60).
  - lia.
  - reflexivity.
  - intros k [i Hk]. simpl in Hk. unfold scenarioTicks in Hk.
    destruct (decide (k = -120)) as [->|]; [lia|].
    destruct (decide (k = 60)) as [->|]; [lia|].
    rewrite !lookup_insert_ne in Hk by congruence.
    rewrite lookup_empty in Hk. discriminate.
Defined.

(** C5, as stated, fails: the start -887280 lies below [MIN_TICK], yet the
    upward query with spacing 60 steps to -887220, which is inside the range
    and a key, and returns [(-887220, true)]. *)
Lemma start_below_range_finds_key :
  in_range (-887280) = false /\
  returns (fun f => nextInitializedTickWithinOneWord f (-887280) false 60)
    (mkProvider edgeTicks) (-887220, true) /\
  ~ returns (fun f => nextInitializedTickWithinOneWord f (-887280) false 60)
      (mkProvider edgeTicks) (MAX_TICK, false).
Proof.
  assert (R : returns
                (fun f => nextInitializedTickWithinOneWord f (-887280) false 60)
                (mkProvider edgeTicks) (-887220, true)).
  { apply (returns_of_run _ _ _ 1%nat). vm_compute. reflexivity. }
  split; [reflexivity|]. split; [exact R|].
  intros R'. pose proof (returns_unique _ _ _ _ R R') as E.
  vm_compute in E. discriminate.
Qed.

(** C5 (amended): for a spacing of at least 1 the query always returns a
    result and leaves the provider unchanged, whatever the start and the
    index.  When the first candidate, one step from the start, is outside
    [[MIN_TICK, MAX_TICK]], the result is [(boundary, false)] regardless of
    the index; this covers every start below the range on a downward query,
    every start above it on an upward query, and every start more than one
    spacing outside the range. *)
Theorem next_total_and_outside_start
    (this : ExampleTickDataProvider) (tick : Z) (zeroForOne : bool) (ts : Z) :
  1 <= ts ->
  (exists r,
     returns (fun f => nextInitializedTickWithinOneWord f tick zeroForOne ts)
       this r) /\
  (in_range (tick + stepOf zeroForOne ts) = false ->
   returns (fun f => nextInitializedTickWithinOneWord f tick zeroForOne ts)
     this (boundary zeroForOne, false)) /\
  ((tick < MIN_TICK /\ zeroForOne = true) \/
   (MAX_TICK < tick /\ zeroForOne = false) \/
   tick + ts < MIN_TICK \/ MAX_TICK < tick - ts ->
   in_range (tick + stepOf zeroForOne ts) = false).
Proof.
  intros Hts. split; [|split].
  - apply next_terminates. lia.
  - apply next_first_candidate_outside.
  - intros H. apply in_range_false. unfold MIN_TICK, MAX_TICK in *.
    destruct zeroForOne; simpl;
      destruct H as [[? ?]|[[? ?]|[?|?]]]; try discriminate; lia.
Qed.

Lemma next_total_and_outside_start_witness :
  returns (fun f => nextInitializedTickWithinOneWord f (-887280) true 60)
    (mkProvider edgeTicks) (MIN_TICK, false).
Proof.
  destruct (next_total_and_outside_start (mkProvider edgeTicks) (-887280) true 60)
    as (_ & Hout & Hstart); [lia|].
  apply Hout, Hstart. left. split; [reflexivity | reflexivity].
Defined.

(** C8: for a spacing of at least 1 the query returns for every start,
    direction and index, within [rangeFuel] iterations of the loop; with
    spacing 0 and a start inside the range that is no key the loop never
    ends. *)
Theorem next_terminates_iff_spacing_positive
    (this : ExampleTickDataProvider) (tick : Z) (zeroForOne : bool) :
  (forall ts : Z, 1 <= ts ->
     forall fuel : nat, (rangeFuel <= fuel)%nat ->
       exists r,
         nextInitializedTickWithinOneWord fuel tick zeroForOne ts this
           = (Some r, this)) /\
  (in_range tick = true -> ticks this !! tick = None ->
   diverges (fun f => nextInitializedTickWithinOneWord f tick zeroForOne 0)
     this).
Proof.
  split.
  - intros ts Hts fuel Hf. rewrite next_run.
    apply scan_terminates; [destruct zeroForOne; simpl; lia | exact Hf].
  - intros Hr Hn fuel. rewrite next_run.
    replace (stepOf zeroForOne 0) with 0 by (destruct zeroForOne; reflexivity).
    replace (tick + 0) with tick by lia.
    apply scan_stuck; assumption.
Qed.

Lemma next_terminates_iff_spacing_positive_witness :
  (exists r,
     nextInitializedTickWithinOneWord rangeFuel 0 false 60
       (mkProvider (scenarioTicks true))
     = (Some r, mkProvider (scenarioTicks true))) /\
  diverges (fun f => nextInitializedTickWithinOneWord f 0 false 0)
    (mkProvider (scenarioTicks true)).
Proof.
  destruct (next_terminates_iff_spacing_positive
              (mkProvider (scenarioTicks true)) 0 false) as [Hpos Hzero].
  split.
  - apply Hpos; lia.
  - apply Hzero; reflexivity.
Defined.

(** ** Claims about [getTick] *)

Lemma js_or_truthy (a b : jsval) : truthy a = true -> js_or a b = a.
Proof. unfold js_or. intros ->. reflexivity. Qed.

Lemma js_or_falsy (a b : jsval) : truthy a = false -> js_or a b = b.
Proof. unfold js_or. intros ->. reflexivity. Qed.

(** C2, as stated, fails: for the stored record [{ liquidityNet: '5' }],
    the shape [fetchPoolData] stores, [getTick] returns a record with
    [liquidityGross: '0'], which is not the stored record. *)
Lemma getTick_fills_missing_field :
  netOnlyTicks !! 60 = Some netOnlyInfo /\
  fst (getTick 60 (mkProvider netOnlyTicks))
    = {| liquidityNet := JString "5"; liquidityGross := JString "0" |} /\
  fst (getTick 60 (mkProvider netOnlyTicks)) <> netOnlyInfo.
Proof.
  split; [reflexivity|]. split; [reflexivity|].
  vm_compute. discriminate.
Qed.

(** C2 (amended): [getTick] is total and leaves the provider unchanged.
    For a tick absent from the snapshot it returns the zero record; for a
    present tick each returned field is the stored field when that is
    truthy and ['0'] when it is missing, the empty string or the number 0.
    Hence the stored record is returned exactly when both of its fields are
    truthy. *)
Theorem getTick_lookup (this : ExampleTickDataProvider) (t : Z) :
  snd (getTick t this) = this /\
  match ticks this !! t with
  | None => fst (getTick t this) = zeroTickInfo
  | Some info =>
      fst (getTick t this)
        = {| liquidityNet := js_or (liquidityNet info) (JString "0");
             liquidityGross := js_or (liquidityGross info) (JString "0") |} /\
      (truthy (liquidityNet info) = true ->
       truthy (liquidityGross info) = true ->
       fst (getTick t this) = info)
  end.
Proof.
  rewrite getTick_run. simpl. split; [reflexivity|].
  destruct (ticks this !! t) as [info|]; simpl.
  - split; [reflexivity|]. intros Hn Hg.
    rewrite (js_or_truthy _ _ Hn), (js_or_truthy _ _ Hg).
    destruct info; reflexivity.
  - reflexivity.
Qed.

Lemma getTick_lookup_witness :
  fst (getTick 60 (mkProvider (scenarioTicks true)))
    = {| liquidityNet := JString "-1000"; liquidityGross := JString "1000" |}.
Proof.
  pose proof (getTick_lookup (mkProvider (scenarioTicks true)) 60) as [_ H].
  change (ticks (mkProvider (scenarioTicks true)) !! 60)
    with (Some {| liquidityNet := JString "-1000";
                  liquidityGross := JString "1000" |}) in H.
  destruct H as [_ H]. apply H; reflexivity.
Defined.

(** C6: in the scenario with spacing 60 and ticks -120 and 60, whether the
    amounts are numbers or decimal strings, the upward query from 0 returns
    [(60, true)], the downward query from 0 returns [(-120, true)],
    [getTick 60] returns the stored record with amounts -1000 and 1000, and
    [getTick 0] returns the zero record, whose amounts are both 0. *)
Theorem scenario_spacing_60 (asString : bool) :
  returns (fun f => nextInitializedTickWithinOneWord f 0 false 60)
    (mkProvider (scenarioTicks asString)) (60, true) /\
  returns (fun f => nextInitializedTickWithinOneWord f 0 true 60)
    (mkProvider (scenarioTicks asString)) (-120, true) /\
  fst (getTick 60 (mkProvider (scenarioTicks asString)))
    = {| liquidityNet := enc asString (-1000);
         liquidityGross := enc asString 1000 |} /\
  amounts (fst (getTick 60 (mkProvider (scenarioTicks asString))))
    = Some (-1000, 1000) /\
  fst (getTick 0 (mkProvider (scenarioTicks asString))) = zeroTickInfo /\
  amounts (fst (getTick 0 (mkProvider (scenarioTicks asString))))
    = Some (0, 0).
Proof.
  split; [|split].
  - apply (returns_of_run _ _ _ 1%nat). destruct asString; reflexivity.
  - apply (returns_of_run _ _ _ 2%nat). destruct asString; reflexivity.
  - destruct asString; vm_compute; auto.
Qed.

(** ** Repeated queries *)

Lemma repeatM_pure {A : Type} (q : M A) (n : nat)
    (this : ExampleTickDataProvider) :
  (forall s, snd (q s) = s) ->
  repeatM n q this = (replicate n (fst (q this)), this).
Proof.
  intros Hq. induction n as [|n IH]; simpl; [reflexivity|].
  unfold mbind, M_bind. specialize (Hq this).
  destruct (q this) as [a s]. simpl in *. subst s.
  rewrite IH. reflexivity.
Qed.

(** C7: [n] identical [getTick] queries, or [n] identical
    [nextInitializedTickWithinOneWord] queries, issued one after the other
    all give the result of the first, and the provider object is the same
    afterwards. *)
Theorem repeated_queries_identical
    (this : ExampleTickDataProvider) (n : nat) :
  (forall tick : Z,
     repeatM n (getTick tick) this
       = (replicate n (fst (getTick tick this)), this)) /\
  (forall (fuel : nat) (tick : Z) (zeroForOne : bool) (ts : Z),
     repeatM n (nextInitializedTickWithinOneWord fuel tick zeroForOne ts) this
       = (replicate n
            (fst (nextInitializedTickWithinOneWord fuel tick zeroForOne ts
                    this)),
          this)).
Proof.
  split.
  - intros tick. apply repeatM_pure. intros s. reflexivity.
  - intros fuel tick z ts. apply repeatM_pure. intros s.
    rewrite next_run. apply scan_state.
Qed.

(** ** Construction *)

(** C4, as stated, fails: the snapshot with the key 5, no multiple of the
    spacing 10, is accepted; construction completes normally and the key is
    served by later lookups. *)
Lemma misaligned_snapshot_accepted :
  is_Some (misalignedTicks !! 5) /\ ~ (10 | 5) /\
  constructor misalignedTicks = Returned (mkProvider misalignedTicks) /\
  constructor misalignedTicks <> Threw "ValidationError" /\
  fst (getTick 5 (mkProvider misalignedTicks)) = sampleInfo /\
  returns (fun f => nextInitializedTickWithinOneWord f (-5) false 10)
    (mkProvider misalignedTicks) (5, true).
Proof.
  split; [unfold misalignedTicks; rewrite lookup_insert_eq; eauto|].
  split; [intros [q Hq]; lia|].
  split; [reflexivity|]. split; [discriminate|]. split; [reflexivity|].
  apply (returns_of_run _ _ _ 1%nat). reflexivity.
Qed.

(** C4 (amended): construction checks nothing.  For every snapshot object
    it completes normally with a provider that holds the snapshot unchanged,
    and every key of the snapshot inside [[MIN_TICK, MAX_TICK]], aligned to
    the spacing or not, is then served: [getTick] returns its record (with
    ['0'] for falsy fields) and the query that starts one spacing below it
    returns it. *)
Theorem constructor_accepts_every_snapshot (snapshot : gmap Z TickInfo) :
  exists this : ExampleTickDataProvider,
    constructor snapshot = Returned this /\
    ticks this = snapshot /\
    forall (k : Z) (info : TickInfo) (ts : Z),
      snapshot !! k = Some info -> in_range k = true ->
      fst (getTick k this)
        = {| liquidityNet := js_or (liquidityNet info) (JString "0");
             liquidityGross := js_or (liquidityGross info) (JString "0") |} /\
      returns (fun f => nextInitializedTickWithinOneWord f (k - ts) false ts)
        this (k, true).
Proof.
  exists (mkProvider snapshot). split; [reflexivity|]. split; [reflexivity|].
  intros k info ts Hk Hr. split.
  - rewrite getTick_run. simpl. rewrite Hk. reflexivity.
  - exists 1%nat. intros fuel Hf. rewrite next_run. simpl stepOf.
    destruct fuel as [|fuel]; [lia|]. rewrite scan_run.
    replace (k - ts + ts) with k by lia.
    rewrite Hr. simpl. rewrite Hk. reflexivity.
Qed.

Lemma constructor_accepts_every_snapshot_witness :
  exists this : ExampleTickDataProvider,
    constructor misalignedTicks = Returned this /\
    returns (fun f => nextInitializedTickWithinOneWord f (5 - 10) false 10)
      this (5, true).
Proof.
  destruct (constructor_accepts_every_snapshot misalignedTicks)
    as (this & Hc & Ht & Hserve).
  exists this. split; [exact Hc|].
  apply (Hserve 5 sampleInfo 10); reflexivity.
Defined.

(** ** The snapshot built by [fetchPoolData] *)

(** Whatever holds of the records written by the collecting loop holds of
    the whole mapping. *)
Lemma collect_fold_inv (P : Z -> TickInfo -> Prop)
    (rs : list (option TickResult)) (acc : gmap Z TickInfo) :
  map_Forall P acc ->
  (forall td, Some td ∈ rs -> tr_initialized td = true ->
     P (tr_tick td) {| liquidityNet := JString (tr_liquidityNet td);
                       liquidityGross := JUndefined |}) ->
  map_Forall P (foldl collectTick acc rs).
Proof.
  revert acc. induction rs as [|r rs IH]; intros acc Hacc Hrs; simpl.
  - exact Hacc.
  - apply IH.
    + destruct r as [td|]; simpl; [|exact Hacc].
      destruct (tr_initialized td) eqn:Hi; [|exact Hacc].
      apply map_Forall_insert_2; [|exact Hacc].
      apply Hrs; [apply elem_of_cons; left; reflexivity | exact Hi].
    + intros td Hin. apply Hrs. apply elem_of_cons. right. exact Hin.
Qed.

Lemma collectTicks_inv (P : Z -> TickInfo -> Prop)
    (rs : list (option TickResult)) :
  (forall td, Some td ∈ rs -> tr_initialized td = true ->
     P (tr_tick td) {| liquidityNet := JString (tr_liquidityNet td);
                       liquidityGross := JUndefined |}) ->
  map_Forall P (collectTicks rs).
Proof. apply collect_fold_inv, map_Forall_empty. Qed.

(** The ticks queried by the fetching loop. *)
Lemma fetchLoop_ticks (fuel : nat) (pool : Pool) (t e ts : Z)
    (rs : list (option TickResult)) (td : TickResult) :
  fetchLoop fuel pool t e ts = Some rs -> Some td ∈ rs ->
  exists j : nat, tr_tick td = t + Z.of_nat j * ts /\ tr_tick td <= e.
Proof.
  revert t rs. induction fuel as [|fuel IH]; intros t rs; simpl.
  - destruct (t <=? e); [discriminate|]. intros [= <-] Hin.
    apply elem_of_nil in Hin. contradiction.
  - destruct (t <=? e) eqn:Hle.
    + destruct (fetchLoop fuel pool (t + ts) e ts) as [rest|] eqn:Hrest;
        [|discriminate].
      intros [= <-] Hin. apply elem_of_cons in Hin as [Hhd|Htl].
      * exists O. unfold fetchTick in Hhd.
        destruct (pool_ticks pool t); [|discriminate].
        injection Hhd as ->. simpl. apply Z.leb_le in Hle. lia.
      * destruct (IH _ _ Hrest Htl) as (j & Hj & He).
        exists (S j). split; [lia | exact He].
    + intros [= <-] Hin. apply elem_of_nil in Hin. contradiction.
Qed.

Lemma fetchLoop_terminates (fuel : nat) (pool : Pool) (t e ts : Z) :
  1 <= ts -> e - t < Z.of_nat fuel ->
  exists rs, fetchLoop fuel pool t e ts = Some rs.
Proof.
  intros Hts. revert t. induction fuel as [|fuel IH]; intros t Hf; simpl.
  - destruct (t <=? e) eqn:Hle; [apply Z.leb_le in Hle; lia | eauto].
  - destruct (t <=? e) eqn:Hle; [|eauto].
    destruct (IH (t + ts) ltac:(lia)) as [rest ->]. eauto.
Qed.

Lemma fetchPoolData_ticks (fuel : nat) (pool : Pool) (z : bool) (range : Z)
    (d : PoolData) :
  fetchPoolData fuel pool z range = Some d ->
  exists rs, pd_ticks d = collectTicks rs /\
    (rs = [] \/
     exists s e,
       startTick (pool_tick pool) (pool_tickSpacing pool) range = Some s /\
       endTick (pool_tick pool) (pool_tickSpacing pool) range = Some e /\
       fetchLoop fuel pool s e (pool_tickSpacing pool) = Some rs).
Proof.
  unfold fetchPoolData.
  destruct (startTick _ _ _) as [s|] eqn:Hs;
    [destruct (endTick _ _ _) as [e|] eqn:He|].
  - destruct (fetchLoop fuel pool s e _) as [rs|] eqn:Hl; [|discriminate].
    intros [= <-]. exists rs. split; [reflexivity|]. right. eauto.
  - intros [= <-]. exists []. auto.
  - intros [= <-]. exists []. auto.
Qed.

(** C9: in every snapshot that [fetchPoolData] produces, each stored record
    has a string [liquidityNet] and no [liquidityGross]; so, on the provider
    built from it, [getTick] returns [liquidityGross = '0'] for every tick,
    present or absent. *)
Theorem fetched_snapshot_has_zero_gross
    (fuel : nat) (pool : Pool) (zeroForOne : bool) (tickRange : Z)
    (poolData : PoolData) (this : ExampleTickDataProvider) :
  fetchPoolData fuel pool zeroForOne tickRange = Some poolData ->
  providerOf poolData = Returned this ->
  forall t : Z,
    liquidityGross (fst (getTick t this)) = JString "0" /\
    (forall info, ticks this !! t = Some info ->
       liquidityGross info = JUndefined /\
       exists s, liquidityNet info = JString s).
Proof.
  intros Hf Hp t. injection Hp as <-. simpl ticks.
  destruct (fetchPoolData_ticks _ _ _ _ _ Hf) as (rs & -> & _).
  assert (Hall : map_Forall
            (fun _ info => liquidityGross info = JUndefined /\
                           exists s, liquidityNet info = JString s)
            (collectTicks rs)).
  { apply collectTicks_inv. intros td _ _. simpl. eauto. }
  split.
  - rewrite getTick_run. simpl.
    destruct (collectTicks rs !! t) as [info|] eqn:Hl; simpl; [|reflexivity].
    destruct (Hall _ _ Hl) as [-> _]. reflexivity.
  - intros info Hl. exact (Hall _ _ Hl).
Qed.

Lemma fetched_snapshot_has_zero_gross_witness :
  exists poolData this,
    fetchPoolData 30 examplePool true 10 = Some poolData /\
    providerOf poolData = Returned this /\
    is_Some (ticks this !! (-74940)) /\
    liquidityGross (fst (getTick (-74940) this)) = JString "0".
Proof.
  destruct (fetchPoolData 30 examplePool true 10) as [poolData|] eqn:Hf;
    [|vm_compute in Hf; discriminate].
  exists poolData, (mkProvider (pd_ticks poolData)).
  split; [reflexivity|]. split; [reflexivity|]. split.
  - vm_compute in Hf. injection Hf as <-. vm_compute. eauto.
  - apply (fetched_snapshot_has_zero_gross 30 examplePool true 10 poolData);
      [exact Hf | reflexivity].
Defined.

Lemma fetchPoolData_returns (pool : Pool) (z : bool) (range : Z) :
  1 <= pool_tickSpacing pool ->
  exists fuel d, fetchPoolData fuel pool z range = Some d.
Proof.
  intros Hts. unfold fetchPoolData, startTick, endTick, alignedTick.
  destruct (pool_tickSpacing pool =? 0) eqn:H0; [apply Z.eqb_eq in H0; lia|].
  simpl.
  set (s := pool_tick pool / pool_tickSpacing pool * pool_tickSpacing pool
            - range * pool_tickSpacing pool).
  set (e := pool_tick pool / pool_tickSpacing pool * pool_tickSpacing pool
            + range * pool_tickSpacing pool).
  destruct (fetchLoop_terminates (Z.to_nat (e - s + 1)) pool s e
              (pool_tickSpacing pool) Hts ltac:(lia)) as [rs Hrs].
  exists (Z.to_nat (e - s + 1)). rewrite Hrs. eauto.
Qed.

(** C10: for a pool with spacing at least 1, [startTick] and [endTick] are
    the current tick rounded down to a multiple of the spacing, minus and
    plus [tickRange] spacings; [fetchPoolData] returns a snapshot, and every
    key of the [ticks] mapping of a returned snapshot is a multiple of the
    spacing and lies in [[startTick, endTick]]. *)
Theorem fetched_keys_aligned_in_window
    (pool : Pool) (zeroForOne : bool) (tickRange : Z) :
  1 <= pool_tickSpacing pool ->
  exists s e : Z,
    startTick (pool_tick pool) (pool_tickSpacing pool) tickRange = Some s /\
    endTick (pool_tick pool) (pool_tickSpacing pool) tickRange = Some e /\
    (exists a : Z,
       a <= pool_tick pool < a + pool_tickSpacing pool /\
       (pool_tickSpacing pool | a) /\
       s = a - tickRange * pool_tickSpacing pool /\
       e = a + tickRange * pool_tickSpacing pool) /\
    (exists fuel poolData,
       fetchPoolData fuel pool zeroForOne tickRange = Some poolData) /\
    (forall fuel poolData,
       fetchPoolData fuel pool zeroForOne tickRange = Some poolData ->
       forall k : Z, is_Some (pd_ticks poolData !! k) ->
         (pool_tickSpacing pool | k) /\ s <= k <= e).
Proof.
  intros Hts.
  set (ts := pool_tickSpacing pool) in *. set (c := pool_tick pool).
  exists (c / ts * ts - tickRange * ts), (c / ts * ts + tickRange * ts).
  assert (Hs : startTick c ts tickRange = Some (c / ts * ts - tickRange * ts)).
  { unfold startTick, alignedTick.
    destruct (ts =? 0) eqn:H0; [apply Z.eqb_eq in H0; lia | reflexivity]. }
  assert (He : endTick c ts tickRange = Some (c / ts * ts + tickRange * ts)).
  { unfold endTick, alignedTick.
    destruct (ts =? 0) eqn:H0; [apply Z.eqb_eq in H0; lia | reflexivity]. }
  split; [exact Hs|]. split; [exact He|]. split; [|split].
  - exists (c / ts * ts). split; [|split; [|split]]; try reflexivity.
    + pose proof (Z.mul_div_le c ts ltac:(lia)).
      pose proof (Z.mul_succ_div_gt c ts ltac:(lia)). lia.
    + exists (c / ts). reflexivity.
  - apply fetchPoolData_returns. exact Hts.
  - intros fuel d Hf k [info Hk].
    destruct (fetchPoolData_ticks _ _ _ _ _ Hf) as (rs & Hd & Hrs).
    rewrite Hd in Hk.
    destruct Hrs as [-> | (s & e & Hs' & He' & Hloop)].
    { unfold collectTicks in Hk. simpl in Hk. rewrite lookup_empty in Hk.
      discriminate. }
    fold ts c in Hs', He', Hloop.
    rewrite Hs in Hs'. rewrite He in He'.
    injection Hs' as <-. injection He' as <-.
    assert (Hall : map_Forall
              (fun k _ => (ts | k) /\
                 c / ts * ts - tickRange * ts <= k
                   <= c / ts * ts + tickRange * ts)
              (collectTicks rs)).
    { apply collectTicks_inv. intros td Hin _.
      destruct (fetchLoop_ticks _ _ _ _ _ _ _ Hloop Hin) as (j & -> & Hle).
      split; [|split].
      - exists (c / ts - tickRange + Z.of_nat j). ring.
      - nia.
      - lia. }
    exact (Hall _ _ Hk).
Qed.

Lemma fetched_keys_aligned_in_window_witness :
  exists s e : Z,
    startTick (pool_tick examplePool) (pool_tickSpacing examplePool) 10
      = Some s /\
    endTick (pool_tick examplePool) (pool_tickSpacing examplePool) 10
      = Some e /\
    (exists poolData,
       fetchPoolData 30 examplePool true 10 = Some poolData /\
       is_Some (pd_ticks poolData !! (-74940)) /\
       (60 | -74940) /\ s <= -74940 <= e).
Proof.
  destruct (fetched_keys_aligned_in_window examplePool true 10)
    as (s & e & Hs & He & _ & _ & Hkeys); [simpl; lia|].
  exists s, e. split; [exact Hs|]. split; [exact He|].
  destruct (fetchPoolData 30 examplePool true 10) as [poolData|] eqn:Hf;
    [|vm_compute in Hf; discriminate].
  exists poolData. split; [reflexivity|].
  assert (Hin : is_Some (pd_ticks poolData !! (-74940))).
  { vm_compute in Hf. injection Hf as <-. vm_compute. eauto. }
  split; [exact Hin|]. exact (Hkeys 30%nat poolData Hf (-74940) Hin).
Defined.

(** * Further properties of the provider *)

(** ** Decimal strings *)

Lemma toString_nonempty (z : Z) : toString z <> "".
Proof.
  unfold toString.
  destruct (Z.to_int z) as [d|d]; simpl; [|discriminate].
  destruct d; discriminate.
Qed.

Lemma toString_truthy (z : Z) : truthy (JString (toString z)) = true.
Proof.
  simpl. destruct (String.eqb_spec (toString z) ""); [|reflexivity].
  exfalso. eapply toString_nonempty; eassumption.
Qed.

(** Reading back the decimal rendering of an integer gives the integer. *)
Lemma amount_toString (z : Z) : amount (JString (toString z)) = Some z.
Proof.
  unfold amount, toString. rewrite NilZero.isi.
  - simpl. rewrite DecimalZ.of_to. reflexivity.
  - destruct z; simpl; try discriminate.
    intros [= H]. exact (DecimalPos.Unsigned.to_uint_nonnil _ H).
  - destruct z; simpl; try discriminate.
    intros [= H]. exact (DecimalPos.Unsigned.to_uint_nonnil _ H).
Qed.

(** ** [getTick] *)

Lemma js_or_zero_truthy (a : jsval) : truthy (js_or a (JString "0")) = true.
Proof. unfold js_or. destruct (truthy a) eqn:H; [exact H | reflexivity]. Qed.

(** Both fields of the record [getTick] returns are truthy, whatever the
    snapshot holds: the caller never receives [undefined], an empty string
    or the number 0. *)
Theorem getTick_fields_truthy (this : ExampleTickDataProvider) (t : Z) :
  truthy (liquidityNet (fst (getTick t this))) = true /\
  truthy (liquidityGross (fst (getTick t this))) = true.
Proof.
  rewrite getTick_run. simpl. split; apply js_or_zero_truthy.
Qed.

Lemma js_or_zero_amount (a : jsval) (n : Z) :
  amount a = Some n -> amount (js_or a (JString "0")) = Some n.
Proof.
  unfold js_or. destruct a as [|m|s]; simpl.
  - discriminate.
  - destruct (Z.eqb_spec m 0) as [->|]; simpl; auto.
  - destruct s; simpl; [discriminate | auto].
Qed.

(** [getTick] keeps the integer a stored field denotes (the number 0
    becomes the string ['0'], which denotes 0 as well), and a field that is
    missing, or a tick that is absent, reads as 0. *)
Theorem getTick_amounts (this : ExampleTickDataProvider) (t : Z) :
  (forall info n,
     ticks this !! t = Some info -> amount (liquidityNet info) = Some n ->
     amount (liquidityNet (fst (getTick t this))) = Some n) /\
  (forall info g,
     ticks this !! t = Some info -> amount (liquidityGross info) = Some g ->
     amount (liquidityGross (fst (getTick t this))) = Some g) /\
  (opt_field liquidityNet (ticks this !! t) = JUndefined ->
   amount (liquidityNet (fst (getTick t this))) = Some 0) /\
  (opt_field liquidityGross (ticks this !! t) = JUndefined ->
   amount (liquidityGross (fst (getTick t this))) = Some 0).
Proof.
  rewrite getTick_run. simpl. repeat split.
  - intros info n -> Hn. simpl. apply js_or_zero_amount, Hn.
  - intros info g -> Hg. simpl. apply js_or_zero_amount, Hg.
  - intros ->. reflexivity.
  - intros ->. reflexivity.
Qed.

Lemma getTick_amounts_witness :
  amount (liquidityNet (fst (getTick 60 (mkProvider (scenarioTicks false)))))
    = Some (-1000) /\
  amount (liquidityGross (fst (getTick 60 (mkProvider netOnlyTicks))))
    = Some 0.
Proof.
  split.
  - apply (getTick_amounts (mkProvider (scenarioTicks false)) 60)
      with (info := {| liquidityNet := JNumber (-1000);
                       liquidityGross := JNumber 1000 |});
      reflexivity.
  - apply (getTick_amounts (mkProvider netOnlyTicks) 60). reflexivity.
Defined.

(** ** [nextInitializedTickWithinOneWord] *)

Lemma in_range_boundary (z : bool) : in_range (boundary z) = true.
Proof. destruct z; reflexivity. Qed.

(** Whatever the spacing, a returned tick lies inside
    [[MIN_TICK, MAX_TICK]]; a tick returned with [true] is a key of the
    index. *)
Theorem next_result_in_range
    (this : ExampleTickDataProvider) (tick : Z) (zeroForOne : bool) (ts : Z)
    (r : Z * bool) :
  returns (fun f => nextInitializedTickWithinOneWord f tick zeroForOne ts)
    this r ->
  in_range (fst r) = true /\
  (snd r = true -> is_Some (ticks this !! fst r)).
Proof.
  intros Hr.
  destruct (next_inv _ _ _ _ _ Hr) as (k & _ & _ & [(-> & Hin & Hs) | (-> & _)]);
    simpl.
  - auto.
  - split; [apply in_range_boundary | discriminate].
Qed.

Lemma next_result_in_range_witness :
  in_range 60 = true /\
  is_Some (ticks (mkProvider (scenarioTicks true)) !! 60).
Proof.
  destruct (next_result_in_range (mkProvider (scenarioTicks true)) 0 false 60
              (60, true)) as [Hin Hkey].
  - apply (returns_of_run _ _ _ 1%nat). reflexivity.
  - split; [exact Hin | apply Hkey; reflexivity].
Defined.

(** A query that finds a key can be undone: when the start [t1] is itself
    a key inside the range and the query from [t1] returns [(t2, true)],
    the query from [t2] in the opposite direction returns [(t1, true)].
    No assumption on the spacing or on the alignment of the keys is
    needed. *)
Theorem next_there_and_back
    (this : ExampleTickDataProvider) (t1 t2 : Z) (zeroForOne : bool) (ts : Z) :
  in_range t1 = true ->
  is_Some (ticks this !! t1) ->
  returns (fun f => nextInitializedTickWithinOneWord f t1 zeroForOne ts)
    this (t2, true) ->
  returns (fun f => nextInitializedTickWithinOneWord f t2 (negb zeroForOne) ts)
    this (t1, true).
Proof.
  intros Hin1 Hk1 Hr.
  destruct (next_inv _ _ _ _ _ Hr) as (k & Hk & Hp & [(E & _) | (E & _)]);
    [|discriminate].
  injection E as ->.
  assert (Hstep : stepOf (negb zeroForOne) ts = - stepOf zeroForOne ts)
    by (destruct zeroForOne; simpl; lia).
  exists (S (Z.to_nat (k - 1))). intros fuel Hf. rewrite next_run, Hstep.
  set (st := stepOf zeroForOne ts) in *.
  replace t1
    with (t1 + k * st + - st + Z.of_nat (Z.to_nat (k - 1)) * - st) at 2
    by (rewrite Z2Nat.id by lia; ring).
  apply scan_finds.
  - intros j Hj.
    replace (t1 + k * st + - st + Z.of_nat j * - st)
      with (t1 + (k - 1 - Z.of_nat j) * st) by ring.
    apply Hp. lia.
  - replace (t1 + k * st + - st + Z.of_nat (Z.to_nat (k - 1)) * - st)
      with t1 by (rewrite Z2Nat.id by lia; ring).
    exact Hin1.
  - replace (t1 + k * st + - st + Z.of_nat (Z.to_nat (k - 1)) * - st)
      with t1 by (rewrite Z2Nat.id by lia; ring).
    exact Hk1.
  - lia.
Qed.

Lemma next_there_and_back_witness :
  returns (fun f => nextInitializedTickWithinOneWord f 60 (negb false) 60)
    (mkProvider (scenarioTicks true)) (-120, true).
Proof.
  apply (next_there_and_back (mkProvider (scenarioTicks true)) (-120) 60
           false 60).
  - reflexivity.
  - simpl. unfold scenarioTicks. rewrite lookup_insert_eq. eauto.
  - apply (returns_of_run _ _ _ 3%nat). reflexivity.
Defined.

Lemma scan_same_keys (a b : ExampleTickDataProvider) (fuel : nat) (z : bool)
    (step t : Z) :
  dom (ticks a) = dom (ticks b) ->
  fst (scan fuel z step t a) = fst (scan fuel z step t b).
Proof.
  intros Hd. revert t. induction fuel as [|fuel IH]; intros t;
    [rewrite (scan_run O z step t a), (scan_run O z step t b)
    |rewrite (scan_run (S fuel) z step t a), (scan_run (S fuel) z step t b)];
    destruct (in_range t); try reflexivity.
  assert (Hiff : ticks a !! t = None <-> ticks b !! t = None).
  { rewrite <- !not_elem_of_dom, Hd. reflexivity. }
  destruct (ticks a !! t) as [ia|] eqn:Ha, (ticks b !! t) as [ib|] eqn:Hb;
    simpl; try reflexivity.
  - destruct Hiff as [_ H]. specialize (H eq_refl). discriminate.
  - destruct Hiff as [H _]. specialize (H eq_refl). discriminate.
  - apply IH.
Qed.

(** The query reads nothing but the key set: two providers with the same
    keys, whatever their records hold, answer every query alike. *)
Theorem next_depends_on_keys_only
    (a b : ExampleTickDataProvider) (fuel : nat) (tick : Z)
    (zeroForOne : bool) (ts : Z) :
  dom (ticks a) = dom (ticks b) ->
  fst (nextInitializedTickWithinOneWord fuel tick zeroForOne ts a)
    = fst (nextInitializedTickWithinOneWord fuel tick zeroForOne ts b).
Proof. intros Hd. rewrite !next_run. apply scan_same_keys, Hd. Qed.

Lemma next_depends_on_keys_only_witness :
  fst (nextInitializedTickWithinOneWord 5 0 true 60
         (mkProvider (scenarioTicks true)))
    = fst (nextInitializedTickWithinOneWord 5 0 true 60
             (mkProvider (scenarioTicks false))).
Proof.
  apply (next_depends_on_keys_only (mkProvider (scenarioTicks true))
           (mkProvider (scenarioTicks false)) 5 0 true 60).
  simpl. unfold scenarioTicks. rewrite !dom_insert_L. reflexivity.
Defined.

Lemma next_off_grid
    (this : ExampleTickDataProvider) (tick : Z) (z : bool) (ts : Z) :
  1 <= ts ->
  (forall k, is_Some (ticks this !! k) -> (ts | k)) ->
  ~ (ts | tick) ->
  returns (fun f => nextInitializedTickWithinOneWord f tick z ts)
    this (boundary z, false).
Proof.
  intros Hts Hal Hmis.
  destruct (next_terminates tick z ts this) as [r Hr]; [lia|].
  destruct (next_inv _ _ _ _ _ Hr) as (k & _ & _ & [(_ & _ & Hs) | (-> & _)]);
    [|exact Hr].
  exfalso. apply Hmis. destruct (Hal _ Hs) as [q Hq].
  destruct z; simpl in Hq.
  - exists (q + k). lia.
  - exists (q - k). lia.
Qed.

(** On an index whose keys are all multiples of the spacing, a query from a
    start that is no multiple of it never finds a key: every candidate is
    misaligned like the start, and the result is [(boundary, false)]. *)
Theorem next_misaligned_start_finds_nothing
    (this : ExampleTickDataProvider) (tick : Z) (zeroForOne : bool) (ts : Z) :
  1 <= ts ->
  (forall k, is_Some (ticks this !! k) -> (ts | k)) ->
  ~ (ts | tick) ->
  returns (fun f => nextInitializedTickWithinOneWord f tick zeroForOne ts)
    this (boundary zeroForOne, false).
Proof. apply next_off_grid. Qed.

Lemma next_misaligned_start_finds_nothing_witness :
  returns (fun f => nextInitializedTickWithinOneWord f 1 false 60)
    (mkProvider (scenarioTicks true)) (MAX_TICK, false).
Proof.
  apply (next_misaligned_start_finds_nothing
           (mkProvider (scenarioTicks true)) 1 false 60).
  - lia.
  - intros k [i Hk]. simpl in Hk. unfold scenarioTicks in Hk.
    destruct (decide (k = -120)) as [->|]; [exists (-2); reflexivity|].
    destruct (decide (k = 60)) as [->|]; [exists 1; reflexivity|].
    rewrite !lookup_insert_ne in Hk by congruence.
    rewrite lookup_empty in Hk. discriminate.
  - intros [q Hq]. lia.
Defined.

Lemma scan_up_steps (fuel : nat) (z : bool) (step t : Z)
    (this : ExampleTickDataProvider) :
  1 <= step -> MAX_TICK - t < Z.of_nat fuel * step ->
  exists r, scan fuel z step t this = (Some r, this).
Proof.
  intros Hs. revert t. induction fuel as [|fuel IH]; intros t Hf;
    rewrite scan_run; destruct (in_range t) eqn:Hr; eauto.
  - apply in_range_true in Hr. lia.
  - destruct (ticks this !! t); eauto. apply IH. nia.
Qed.

Lemma scan_down_steps (fuel : nat) (z : bool) (step t : Z)
    (this : ExampleTickDataProvider) :
  1 <= step -> t - MIN_TICK < Z.of_nat fuel * step ->
  exists r, scan fuel z (- step) t this = (Some r, this).
Proof.
  intros Hs. revert t. induction fuel as [|fuel IH]; intros t Hf;
    rewrite scan_run; destruct (in_range t) eqn:Hr; eauto.
  - apply in_range_true in Hr. lia.
  - destruct (ticks this !! t); eauto. apply IH. nia.
Qed.

(** The loop body runs at most [(MAX_TICK - MIN_TICK) / tickSpacing + 1]
    times: that many iterations are enough for every start, direction and
    index, when the spacing is at least 1. *)
Theorem next_iteration_bound
    (this : ExampleTickDataProvider) (tick : Z) (zeroForOne : bool) (ts : Z)
    (fuel : nat) :
  1 <= ts ->
  (MAX_TICK - MIN_TICK) / ts + 1 <= Z.of_nat fuel ->
  exists r,
    nextInitializedTickWithinOneWord fuel tick zeroForOne ts this
      = (Some r, this).
Proof.
  intros Hts Hf. rewrite next_run.
  set (c := tick + stepOf zeroForOne ts).
  destruct (in_range c) eqn:Hr; [|rewrite scan_run, Hr; eauto].
  apply in_range_true in Hr.
  pose proof (Z.mul_succ_div_gt (MAX_TICK - MIN_TICK) ts ltac:(lia)) as Hd.
  assert (MAX_TICK - MIN_TICK < Z.of_nat fuel * ts) by nia.
  destruct zeroForOne; simpl stepOf.
  - apply scan_down_steps; lia.
  - apply scan_up_steps; lia.
Qed.

Lemma next_iteration_bound_witness :
  exists r,
    nextInitializedTickWithinOneWord (Z.to_nat 29576) 0 false 60
      (mkProvider (scenarioTicks true))
    = (Some r, mkProvider (scenarioTicks true)).
Proof.
  apply (next_iteration_bound (mkProvider (scenarioTicks true)) 0 false 60
           (Z.to_nat 29576)).
  - lia.
  - vm_compute. discriminate.
Defined.

(** With spacing 0 the candidate is the start itself and never moves: a
    start outside the range gives [(boundary, false)], a start that is a key
    inside the range is returned itself with [true], and from any other
    start the loop never ends. *)
Theorem next_zero_spacing
    (this : ExampleTickDataProvider) (tick : Z) (zeroForOne : bool) :
  (in_range tick = false ->
   returns (fun f => nextInitializedTickWithinOneWord f tick zeroForOne 0)
     this (boundary zeroForOne, false)) /\
  (in_range tick = true -> is_Some (ticks this !! tick) ->
   returns (fun f => nextInitializedTickWithinOneWord f tick zeroForOne 0)
     this (tick, true)) /\
  (in_range tick = true -> ticks this !! tick = None ->
   diverges (fun f => nextInitializedTickWithinOneWord f tick zeroForOne 0)
     this).
Proof.
  assert (E : tick + stepOf zeroForOne 0 = tick)
    by (destruct zeroForOne; simpl; lia).
  split; [|split].
  - intros Hr. apply next_first_candidate_outside. rewrite E. exact Hr.
  - intros Hr [i Hi]. exists 1%nat. intros fuel Hf.
    destruct fuel as [|fuel]; [lia|].
    rewrite next_run, E, scan_run, Hr, Hi. reflexivity.
  - intros Hr Hn fuel. rewrite next_run, E.
    replace (stepOf zeroForOne 0) with 0 by (destruct zeroForOne; reflexivity).
    apply scan_stuck; assumption.
Qed.

Lemma next_zero_spacing_witness :
  returns (fun f => nextInitializedTickWithinOneWord f 60 false 0)
    (mkProvider (scenarioTicks true)) (60, true) /\
  returns (fun f => nextInitializedTickWithinOneWord f 900000 false 0)
    (mkProvider (scenarioTicks true)) (MAX_TICK, false).
Proof.
  split.
  - apply (next_zero_spacing (mkProvider (scenarioTicks true)) 60 false);
      [reflexivity|].
    simpl. unfold scenarioTicks.
    rewrite lookup_insert_ne, lookup_insert_eq by lia. eauto.
  - apply (next_zero_spacing (mkProvider (scenarioTicks true)) 900000 false).
    reflexivity.
Defined.

(** * Further properties of [fetchPoolData] *)

(** ** The results of the fetching loop *)

Lemma fetchLoop_elem (fuel : nat) (pool : Pool) (t e ts : Z)
    (rs : list (option TickResult)) (td : TickResult) :
  fetchLoop fuel pool t e ts = Some rs -> Some td ∈ rs ->
  fetchTick pool (tr_tick td) = Some td.
Proof.
  revert t rs. induction fuel as [|fuel IH]; intros t rs; simpl.
  - destruct (t <=? e); [discriminate|]. intros [= <-] Hin.
    apply elem_of_nil in Hin. contradiction.
  - destruct (t <=? e).
    + destruct (fetchLoop fuel pool (t + ts) e ts) as [rest|] eqn:Hrest;
        [|discriminate].
      intros [= <-] Hin. apply elem_of_cons in Hin as [Hhd|Htl].
      * assert (tr_tick td = t) as ->; [|congruence].
        unfold fetchTick in Hhd. destruct (pool_ticks pool t); [|discriminate].
        injection Hhd as ->. reflexivity.
      * exact (IH _ _ Hrest Htl).
    + intros [= <-] Hin. apply elem_of_nil in Hin. contradiction.
Qed.

Lemma fetchLoop_complete (fuel : nat) (pool : Pool) (t e ts : Z)
    (rs : list (option TickResult)) (j : nat) :
  0 <= ts -> fetchLoop fuel pool t e ts = Some rs ->
  t + Z.of_nat j * ts <= e ->
  fetchTick pool (t + Z.of_nat j * ts) ∈ rs.
Proof.
  intros Hts. revert t rs j. induction fuel as [|fuel IH]; intros t rs j;
    simpl.
  - destruct (t <=? e) eqn:Hle; [discriminate|].
    apply Z.leb_gt in Hle. intros _ He. nia.
  - destruct (t <=? e) eqn:Hle.
    + destruct (fetchLoop fuel pool (t + ts) e ts) as [rest|] eqn:Hrest;
        [|discriminate].
      intros [= <-] He. destruct j as [|j].
      * replace (t + Z.of_nat 0 * ts) with t by lia.
        apply elem_of_cons. left. reflexivity.
      * apply elem_of_cons. right.
        replace (t + Z.of_nat (S j) * ts) with (t + ts + Z.of_nat j * ts)
          in * by lia.
        apply (IH _ _ _ Hrest He).
    + apply Z.leb_gt in Hle. intros _ He. nia.
Qed.

(** ** Lookups in the collected mapping *)

Lemma collect_lookup_keep (rs : list (option TickResult))
    (acc : gmap Z TickInfo) (k : Z) (r : TickInfo) :
  acc !! k = Some r ->
  (forall td, Some td ∈ rs -> tr_initialized td = true -> tr_tick td = k ->
     {| liquidityNet := JString (tr_liquidityNet td);
        liquidityGross := JUndefined |} = r) ->
  foldl collectTick acc rs !! k = Some r.
Proof.
  revert acc. induction rs as [|x rs IH]; intros acc Hacc Hrs; simpl.
  - exact Hacc.
  - apply IH.
    + destruct x as [td|]; simpl; [|exact Hacc].
      destruct (tr_initialized td) eqn:Hi; [|exact Hacc].
      destruct (decide (tr_tick td = k)) as [Hk|Hk].
      * rewrite <- Hk at 1. rewrite lookup_insert_eq. f_equal.
        apply Hrs; [apply elem_of_cons; left; reflexivity | exact Hi | exact Hk].
      * rewrite lookup_insert_ne by exact Hk. exact Hacc.
    + intros td Hin. apply Hrs. apply elem_of_cons. right. exact Hin.
Qed.

Lemma collect_lookup_new (rs : list (option TickResult))
    (acc : gmap Z TickInfo) (td : TickResult) :
  Some td ∈ rs -> tr_initialized td = true ->
  (forall td', Some td' ∈ rs -> tr_tick td' = tr_tick td -> td' = td) ->
  foldl collectTick acc rs !! tr_tick td
    = Some {| liquidityNet := JString (tr_liquidityNet td);
              liquidityGross := JUndefined |}.
Proof.
  revert acc. induction rs as [|x rs IH]; intros acc Hin Hi Hfun.
  - apply elem_of_nil in Hin. contradiction.
  - apply elem_of_cons in Hin as [<-|Hin]; simpl.
    + rewrite Hi. apply collect_lookup_keep; [apply lookup_insert_eq|].
      intros td' Hin' _ Hk.
      rewrite (Hfun td'); [reflexivity | | exact Hk].
      apply elem_of_cons. right. exact Hin'.
    + apply IH; [exact Hin | exact Hi |].
      intros td' Hin'. apply Hfun. apply elem_of_cons. right. exact Hin'.
Qed.

(** The window of a pool with positive spacing. *)
Lemma window_bounds (pool : Pool) (range : Z) :
  pool_tickSpacing pool <> 0 ->
  startTick (pool_tick pool) (pool_tickSpacing pool) range
    = Some (pool_tick pool / pool_tickSpacing pool * pool_tickSpacing pool
            - range * pool_tickSpacing pool) /\
  endTick (pool_tick pool) (pool_tickSpacing pool) range
    = Some (pool_tick pool / pool_tickSpacing pool * pool_tickSpacing pool
            + range * pool_tickSpacing pool).
Proof.
  intros Hts. unfold startTick, endTick, alignedTick.
  destruct (pool_tickSpacing pool =? 0) eqn:H0;
    [apply Z.eqb_eq in H0; contradiction | split; reflexivity].
Qed.

Lemma fetchPoolData_loop (fuel : nat) (pool : Pool) (z : bool) (range : Z)
    (d : PoolData) :
  pool_tickSpacing pool <> 0 ->
  fetchPoolData fuel pool z range = Some d ->
  exists rs,
    pd_ticks d = collectTicks rs /\
    fetchLoop fuel pool
      (pool_tick pool / pool_tickSpacing pool * pool_tickSpacing pool
       - range * pool_tickSpacing pool)
      (pool_tick pool / pool_tickSpacing pool * pool_tickSpacing pool
       + range * pool_tickSpacing pool)
      (pool_tickSpacing pool) = Some rs.
Proof.
  intros Hts. destruct (window_bounds pool range Hts) as [Hs He].
  unfold fetchPoolData. rewrite Hs, He.
  destruct (fetchLoop fuel pool _ _ _) as [rs|]; [|discriminate].
  intros [= <-]. exists rs. split; reflexivity.
Qed.

(** The mapping holds exactly the window ticks that the contract reports
    initialized, each with the decimal rendering of its [liquidityNet]. *)
Lemma fetched_lookup (fuel : nat) (pool : Pool) (z : bool) (range : Z)
    (d : PoolData) (k : Z) (info : TickInfo) :
  1 <= pool_tickSpacing pool ->
  fetchPoolData fuel pool z range = Some d ->
  pd_ticks d !! k = Some info <->
  exists tickData,
    pool_ticks pool k = Some tickData /\
    oc_initialized tickData = true /\
    info = {| liquidityNet := JString (toString (oc_liquidityNet tickData));
              liquidityGross := JUndefined |} /\
    (pool_tickSpacing pool | k) /\
    pool_tick pool / pool_tickSpacing pool * pool_tickSpacing pool
      - range * pool_tickSpacing pool <= k
      <= pool_tick pool / pool_tickSpacing pool * pool_tickSpacing pool
         + range * pool_tickSpacing pool.
Proof.
  intros Hts Hf.
  destruct (fetchPoolData_loop fuel pool z range d ltac:(lia) Hf)
    as (rs & -> & Hloop).
  set (ts := pool_tickSpacing pool) in *. set (c := pool_tick pool) in *.
  split.
  - intros Hk.
    assert (Hall : map_Forall
              (fun k info => exists tickData,
                 pool_ticks pool k = Some tickData /\
                 oc_initialized tickData = true /\
                 info = {| liquidityNet :=
                             JString (toString (oc_liquidityNet tickData));
                           liquidityGross := JUndefined |} /\
                 (ts | k) /\
                 c / ts * ts - range * ts <= k <= c / ts * ts + range * ts)
              (collectTicks rs)).
    { apply collectTicks_inv. intros td Hin Hi.
      pose proof (fetchLoop_elem _ _ _ _ _ _ _ Hloop Hin) as Hft.
      destruct (fetchLoop_ticks _ _ _ _ _ _ _ Hloop Hin) as (j & Hj & Hle).
      unfold fetchTick in Hft.
      destruct (pool_ticks pool (tr_tick td)) as [tickData|]; [|discriminate].
      exists tickData. injection Hft as Htd.
      pose proof (f_equal tr_initialized Htd) as E1.
      pose proof (f_equal tr_liquidityNet Htd) as E2. simpl in E1, E2.
      split; [reflexivity|]. split; [congruence|].
      split; [rewrite <- E2; reflexivity|].
      rewrite Hj in *. split; [|nia].
      exists (c / ts - range + Z.of_nat j). ring. }
    exact (Hall _ _ Hk).
  - intros (tickData & Hp & Hi & -> & [q Hq] & Hlo & Hhi).
    set (td := {| tr_tick := k;
                  tr_liquidityNet := toString (oc_liquidityNet tickData);
                  tr_initialized := oc_initialized tickData |}).
    assert (Hft : fetchTick pool k = Some td)
      by (unfold fetchTick; rewrite Hp; reflexivity).
    assert (Hin : Some td ∈ rs).
    { rewrite <- Hft.
      assert (H0 : 0 <= ts) by lia.
      assert (Hq0 : 0 <= q - c / ts + range) by nia.
      replace k with (c / ts * ts - range * ts
                      + Z.of_nat (Z.to_nat (q - c / ts + range)) * ts).
      - apply (fetchLoop_complete _ _ _ _ _ _ _ H0 Hloop).
        rewrite Z2Nat.id by exact Hq0. nia.
      - rewrite Z2Nat.id by exact Hq0. lia. }
    change k with (tr_tick td). apply collect_lookup_new.
    + exact Hin.
    + exact Hi.
    + intros td' Hin' Hk'.
      pose proof (fetchLoop_elem _ _ _ _ _ _ _ Hloop Hin') as Hft'.
      rewrite Hk' in Hft'. simpl in Hft'. congruence.
Qed.

(** ** What the snapshot contains *)

(** For a pool with spacing at least 1, the [ticks] mapping of a returned
    snapshot has the key [k] exactly when [k] is a multiple of the spacing
    inside [[startTick, endTick]] whose [ticks(k)] call succeeded and
    reported [initialized]; the record stored is the decimal string of the
    reported [liquidityNet], with no [liquidityGross]. *)
Theorem fetched_snapshot_exact
    (fuel : nat) (pool : Pool) (zeroForOne : bool) (tickRange : Z)
    (poolData : PoolData) (k : Z) (info : TickInfo) :
  1 <= pool_tickSpacing pool ->
  fetchPoolData fuel pool zeroForOne tickRange = Some poolData ->
  pd_ticks poolData !! k = Some info <->
  exists tickData,
    pool_ticks pool k = Some tickData /\
    oc_initialized tickData = true /\
    info = {| liquidityNet := JString (toString (oc_liquidityNet tickData));
              liquidityGross := JUndefined |} /\
    (pool_tickSpacing pool | k) /\
    pool_tick pool / pool_tickSpacing pool * pool_tickSpacing pool
      - tickRange * pool_tickSpacing pool <= k
      <= pool_tick pool / pool_tickSpacing pool * pool_tickSpacing pool
         + tickRange * pool_tickSpacing pool.
Proof. apply fetched_lookup. Qed.

Lemma fetched_snapshot_exact_witness :
  exists poolData,
    fetchPoolData 30 examplePool true 10 = Some poolData /\
    pd_ticks poolData !! (-74940)
      = Some {| liquidityNet := JString "77"; liquidityGross := JUndefined |}.
Proof.
  destruct (fetchPoolData 30 examplePool true 10) as [poolData|] eqn:Hf;
    [|vm_compute in Hf; discriminate].
  exists poolData. split; [reflexivity|].
  apply (fetched_snapshot_exact 30 examplePool true 10 poolData (-74940));
    [simpl; lia | exact Hf |].
  exists {| oc_liquidityNet := 77; oc_initialized := true |}.
  split; [reflexivity|]. split; [reflexivity|]. split; [reflexivity|].
  split; [exists (-1249); reflexivity|].
  split; apply Z.leb_le; reflexivity.
Defined.

Lemma collectTick_reject (pool : Pool) (acc : gmap Z TickInfo) (t : Z) :
  collectTick acc (fetchTick (uninitializedOnReject pool) t)
    = collectTick acc (fetchTick pool t).
Proof.
  unfold fetchTick, uninitializedOnReject. simpl.
  destruct (pool_ticks pool t); reflexivity.
Qed.

Lemma fetchLoop_reject (fuel : nat) (pool : Pool) (t e ts : Z) :
  match fetchLoop fuel pool t e ts,
        fetchLoop fuel (uninitializedOnReject pool) t e ts with
  | Some rs, Some rs' =>
      forall acc, foldl collectTick acc rs' = foldl collectTick acc rs
  | None, None => True
  | _, _ => False
  end.
Proof.
  revert t. induction fuel as [|fuel IH]; intros t; simpl.
  - destruct (t <=? e); [exact I | reflexivity].
  - destruct (t <=? e); [|reflexivity].
    specialize (IH (t + ts)).
    destruct (fetchLoop fuel pool (t + ts) e ts),
             (fetchLoop fuel (uninitializedOnReject pool) (t + ts) e ts);
      try contradiction; [|exact I].
    intros acc. simpl. rewrite collectTick_reject. apply IH.
Qed.

(** A rejected [ticks] call leaves no trace: the mapping fetched from a
    pool is the one fetched from the pool in which every rejected call is
    answered "not initialized" instead, whatever the spacing and range. *)
Theorem fetch_rejected_call_as_uninitialized
    (fuel : nat) (pool : Pool) (zeroForOne : bool) (tickRange : Z) :
  pd_ticks <$> fetchPoolData fuel (uninitializedOnReject pool)
                 zeroForOne tickRange
    = pd_ticks <$> fetchPoolData fuel pool zeroForOne tickRange.
Proof.
  unfold fetchPoolData.
  change (pool_tick (uninitializedOnReject pool)) with (pool_tick pool).
  change (pool_tickSpacing (uninitializedOnReject pool))
    with (pool_tickSpacing pool).
  destruct (startTick _ _ _) as [s|]; [|reflexivity].
  destruct (endTick _ _ _) as [e|]; [|reflexivity].
  pose proof (fetchLoop_reject fuel pool s e (pool_tickSpacing pool)) as H.
  destruct (fetchLoop fuel pool s e _),
           (fetchLoop fuel (uninitializedOnReject pool) s e _);
    try contradiction; [|reflexivity].
  simpl. unfold collectTicks. rewrite H. reflexivity.
Qed.

(** With spacing 0 the bounds are [NaN], and with a negative range (and a
    positive spacing) the start lies above the end: no tick is queried and
    the snapshot is returned with an empty mapping. *)
Theorem fetch_empty_window
    (fuel : nat) (pool : Pool) (zeroForOne : bool) (tickRange : Z) :
  pool_tickSpacing pool = 0 \/ (1 <= pool_tickSpacing pool /\ tickRange < 0) ->
  exists poolData,
    fetchPoolData fuel pool zeroForOne tickRange = Some poolData /\
    pd_ticks poolData = ∅.
Proof.
  intros [H0 | [Hts Hr]]; unfold fetchPoolData.
  - unfold startTick, alignedTick. rewrite H0. simpl. eauto.
  - destruct (window_bounds pool tickRange ltac:(lia)) as [-> ->].
    assert (E : forall f t e, e < t ->
                fetchLoop f pool t e (pool_tickSpacing pool) = Some []).
    { intros f t e Hlt. destruct f; simpl;
        destruct (Z.leb_spec t e); try lia; reflexivity. }
    rewrite E by nia. eauto.
Qed.

Lemma fetch_empty_window_witness :
  exists poolData,
    fetchPoolData 0 examplePool true (-1) = Some poolData /\
    pd_ticks poolData = ∅.
Proof.
  apply (fetch_empty_window 0 examplePool true (-1)).
  right. simpl. lia.
Defined.

(** A wider range only adds ticks: for the same pool, the mapping fetched
    with a smaller [tickRange] is contained in the one fetched with a larger
    [tickRange]. *)
Theorem fetch_range_monotone
    (fuel1 fuel2 : nat) (pool : Pool) (z1 z2 : bool) (range1 range2 : Z)
    (small large : PoolData) :
  1 <= pool_tickSpacing pool ->
  range1 <= range2 ->
  fetchPoolData fuel1 pool z1 range1 = Some small ->
  fetchPoolData fuel2 pool z2 range2 = Some large ->
  pd_ticks small ⊆ pd_ticks large.
Proof.
  intros Hts Hr H1 H2. apply map_subseteq_spec. intros k info Hk.
  apply (fetched_lookup _ _ _ _ _ k info Hts H1) in Hk.
  apply (fetched_lookup _ _ _ _ _ k info Hts H2).
  destruct Hk as (td & Hp & Hi & Hinfo & Hdiv & Hlo & Hhi).
  exists td. repeat split; try assumption; nia.
Qed.

Lemma fetch_range_monotone_witness :
  exists small large,
    fetchPoolData 3 examplePool true 1 = Some small /\
    fetchPoolData 21 examplePool true 10 = Some large /\
    pd_ticks small ⊆ pd_ticks large.
Proof.
  destruct (fetchPoolData 3 examplePool true 1) as [small|] eqn:H1;
    [|vm_compute in H1; discriminate].
  destruct (fetchPoolData 21 examplePool true 10) as [large|] eqn:H2;
    [|vm_compute in H2; discriminate].
  exists small, large. split; [reflexivity|]. split; [reflexivity|].
  apply (fetch_range_monotone 3 21 examplePool true true 1 10 small large);
    [simpl; lia | lia | exact H1 | exact H2].
Defined.

(** ** How many ticks are queried *)

Lemma iterations_step (t e ts : Z) :
  1 <= ts -> t <= e -> iterations t e ts = iterations (t + ts) e ts + 1.
Proof.
  intros Hts Hle. unfold iterations.
  destruct (Z.leb_spec t e); [|lia].
  destruct (Z.leb_spec (t + ts) e).
  - replace (e - t) with (e - (t + ts) + 1 * ts) by lia.
    rewrite Z.div_add by lia. lia.
  - rewrite Z.div_small by lia. lia.
Qed.

Lemma iterations_nonneg (t e ts : Z) : 1 <= ts -> 0 <= iterations t e ts.
Proof.
  intros Hts. unfold iterations. destruct (Z.leb_spec t e); [|lia].
  pose proof (Z.div_pos (e - t) ts ltac:(lia) ltac:(lia)). lia.
Qed.

Lemma fetchLoop_length (fuel : nat) (pool : Pool) (t e ts : Z)
    (rs : list (option TickResult)) :
  1 <= ts -> fetchLoop fuel pool t e ts = Some rs ->
  Z.of_nat (length rs) = iterations t e ts.
Proof.
  intros Hts. revert t rs. induction fuel as [|fuel IH]; intros t rs; simpl.
  - destruct (Z.leb_spec t e); [discriminate|]. intros [= <-].
    unfold iterations. destruct (Z.leb_spec t e); [lia | reflexivity].
  - destruct (Z.leb_spec t e).
    + destruct (fetchLoop fuel pool (t + ts) e ts) as [rest|] eqn:Hrest;
        [|discriminate].
      intros [= <-]. rewrite iterations_step by lia.
      rewrite <- (IH _ _ Hrest). simpl length. lia.
    + intros [= <-]. unfold iterations.
      destruct (Z.leb_spec t e); [lia | reflexivity].
Qed.

Lemma fetchLoop_fuel (fuel : nat) (pool : Pool) (t e ts : Z) :
  1 <= ts ->
  fetchLoop fuel pool t e ts = None <-> Z.of_nat fuel < iterations t e ts.
Proof.
  intros Hts. revert t. induction fuel as [|fuel IH]; intros t; simpl.
  - destruct (Z.leb_spec t e).
    + pose proof (iterations_step t e ts Hts ltac:(lia)).
      pose proof (iterations_nonneg (t + ts) e ts Hts). split; [lia | auto].
    + unfold iterations. destruct (Z.leb_spec t e); [lia|].
      split; [discriminate | lia].
  - destruct (Z.leb_spec t e).
    + rewrite (iterations_step t e ts Hts) by lia. specialize (IH (t + ts)).
      destruct (fetchLoop fuel pool (t + ts) e ts).
      * split; [discriminate|]. intros Hlt.
        assert (Hn : @None (list (option TickResult)) = None) by reflexivity.
        destruct IH as [_ IH]. specialize (IH ltac:(lia)). discriminate.
      * destruct IH as [IH _]. specialize (IH eq_refl).
        split; [lia | reflexivity].
    + unfold iterations. destruct (Z.leb_spec t e); [lia|].
      split; [discriminate | lia].
Qed.

Lemma collect_size (rs : list (option TickResult)) (acc : gmap Z TickInfo) :
  (size (foldl collectTick acc rs) <= size acc + length rs)%nat.
Proof.
  revert acc. induction rs as [|x rs IH]; intros acc; simpl; [lia|].
  specialize (IH (collectTick acc x)).
  assert (size (collectTick acc x) <= S (size acc))%nat; [|lia].
  destruct x as [td|]; simpl; [|lia].
  destruct (tr_initialized td); [|lia].
  rewrite map_size_insert. destruct (acc !! tr_tick td); simpl; lia.
Qed.

(** For a spacing of at least 1 and a range of at least 0 the loop issues
    exactly [2 * tickRange + 1] calls of [ticks]: with fewer iterations
    allowed it has not finished, with that many it has, and the returned
    mapping has at most that many keys. *)
Theorem fetch_query_count
    (fuel : nat) (pool : Pool) (zeroForOne : bool) (tickRange : Z) :
  1 <= pool_tickSpacing pool ->
  0 <= tickRange ->
  (fetchPoolData fuel pool zeroForOne tickRange = None
     <-> Z.of_nat fuel < 2 * tickRange + 1) /\
  (forall poolData,
     fetchPoolData fuel pool zeroForOne tickRange = Some poolData ->
     Z.of_nat (size (pd_ticks poolData)) <= 2 * tickRange + 1).
Proof.
  intros Hts Hr.
  set (ts := pool_tickSpacing pool) in *. set (c := pool_tick pool).
  assert (Hit : iterations (c / ts * ts - tickRange * ts)
                  (c / ts * ts + tickRange * ts) ts = 2 * tickRange + 1).
  { unfold iterations. destruct (Z.leb_spec (c / ts * ts - tickRange * ts)
                                   (c / ts * ts + tickRange * ts)); [|nia].
    replace (c / ts * ts + tickRange * ts - (c / ts * ts - tickRange * ts))
      with (2 * tickRange * ts) by ring.
    rewrite Z.div_mul by lia. reflexivity. }
  split.
  - unfold fetchPoolData. fold ts c.
    destruct (window_bounds pool tickRange ltac:(lia)) as [Hs He].
    fold ts c in Hs, He. rewrite Hs, He. rewrite <- Hit.
    rewrite <- (fetchLoop_fuel fuel pool _ _ ts Hts).
    destruct (fetchLoop fuel pool _ _ ts); split; auto; discriminate.
  - intros d Hf.
    destruct (fetchPoolData_loop fuel pool zeroForOne tickRange d ltac:(lia) Hf)
      as (rs & -> & Hloop).
    fold ts c in Hloop.
    pose proof (fetchLoop_length _ _ _ _ _ _ Hts Hloop) as Hlen.
    pose proof (collect_size rs ∅) as Hsz. rewrite map_size_empty in Hsz.
    unfold collectTicks. lia.
Qed.

Lemma fetch_query_count_witness :
  fetchPoolData 20 examplePool true 10 = None /\
  (forall poolData,
     fetchPoolData 21 examplePool true 10 = Some poolData ->
     Z.of_nat (size (pd_ticks poolData)) <= 2 * 10 + 1).
Proof.
  split.
  - apply (fetch_query_count 20 examplePool true 10); [simpl; lia | lia | lia].
  - apply (fetch_query_count 21 examplePool true 10); [simpl; lia | lia].
Defined.

(** * From the fetched snapshot to the provider *)

Lemma fetchPoolData_fields (fuel : nat) (pool : Pool) (z : bool) (range : Z)
    (d : PoolData) :
  fetchPoolData fuel pool z range = Some d ->
  pd_tickCurrent d = pool_tick pool /\
  pd_tickSpacing d = pool_tickSpacing pool /\
  pd_zeroForOne d = z.
Proof.
  unfold fetchPoolData.
  destruct (match startTick _ _ _ with Some _ => _ | None => _ end);
    [|discriminate].
  intros [= <-]. simpl. auto.
Qed.

(** The current tick of a pool is in general no multiple of the spacing,
    while every key of the fetched mapping is.  On the provider built from
    a fetched snapshot, the query that starts at the snapshot's own
    [tickCurrent] with its [tickSpacing] then finds no tick in either
    direction and returns [(boundary, false)]. *)
Theorem fetched_query_from_unaligned_current_tick
    (fuel : nat) (pool : Pool) (zeroForOne : bool) (tickRange : Z)
    (poolData : PoolData) (this : ExampleTickDataProvider) (z : bool) :
  1 <= pool_tickSpacing pool ->
  ~ (pool_tickSpacing pool | pool_tick pool) ->
  fetchPoolData fuel pool zeroForOne tickRange = Some poolData ->
  providerOf poolData = Returned this ->
  returns
    (fun f => nextInitializedTickWithinOneWord f (pd_tickCurrent poolData) z
                (pd_tickSpacing poolData))
    this (boundary z, false).
Proof.
  intros Hts Hmis Hf Hp. injection Hp as <-.
  destruct (fetchPoolData_fields _ _ _ _ _ Hf) as (-> & -> & _).
  apply next_off_grid; [exact Hts | | exact Hmis].
  intros k [info Hk]. simpl in Hk.
  apply (fetched_lookup _ _ _ _ _ k info Hts Hf) in Hk.
  destruct Hk as (_ & _ & _ & _ & Hdiv & _). exact Hdiv.
Qed.

Lemma fetched_query_from_unaligned_current_tick_witness :
  exists poolData this,
    fetchPoolData 30 examplePool true 10 = Some poolData /\
    providerOf poolData = Returned this /\
    is_Some (ticks this !! (-74940)) /\
    returns
      (fun f => nextInitializedTickWithinOneWord f (pd_tickCurrent poolData)
                  false (pd_tickSpacing poolData))
      this (MAX_TICK, false).
Proof.
  destruct (fetchPoolData 30 examplePool true 10) as [poolData|] eqn:Hf;
    [|vm_compute in Hf; discriminate].
  exists poolData, (mkProvider (pd_ticks poolData)).
  split; [reflexivity|]. split; [reflexivity|]. split.
  - vm_compute in Hf. injection Hf as <-. vm_compute. eauto.
  - apply (fetched_query_from_unaligned_current_tick 30 examplePool true 10
             poolData (mkProvider (pd_ticks poolData)) false).
    + simpl. lia.
    + simpl. intros [q Hq]. lia.
    + exact Hf.
    + reflexivity.
Defined.

(** On the provider built from a fetched snapshot (spacing at least 1), a
    tick returned with [true] is one the contract reported initialized, and
    it lies inside the fetched window and inside [[MIN_TICK, MAX_TICK]].
    When the contract reported no initialized tick inside the window
    strictly beyond the start, the result is [(boundary, false)], whatever
    is initialized on chain outside the window. *)
Theorem fetched_query_sees_window_only
    (fuel : nat) (pool : Pool) (zeroForOne : bool) (tickRange : Z)
    (poolData : PoolData) (this : ExampleTickDataProvider)
    (tick : Z) (z : bool) (ts : Z) :
  1 <= pool_tickSpacing pool ->
  fetchPoolData fuel pool zeroForOne tickRange = Some poolData ->
  providerOf poolData = Returned this ->
  (forall k,
     returns (fun f => nextInitializedTickWithinOneWord f tick z ts)
       this (k, true) ->
     in_range k = true /\
     (exists tickData,
        pool_ticks pool k = Some tickData /\ oc_initialized tickData = true) /\
     pool_tick pool / pool_tickSpacing pool * pool_tickSpacing pool
       - tickRange * pool_tickSpacing pool <= k
       <= pool_tick pool / pool_tickSpacing pool * pool_tickSpacing pool
          + tickRange * pool_tickSpacing pool) /\
  (1 <= ts ->
   (forall k tickData,
      pool_tick pool / pool_tickSpacing pool * pool_tickSpacing pool
        - tickRange * pool_tickSpacing pool <= k
        <= pool_tick pool / pool_tickSpacing pool * pool_tickSpacing pool
           + tickRange * pool_tickSpacing pool ->
      (if z then k < tick else tick < k) ->
      pool_ticks pool k = Some tickData ->
      oc_initialized tickData = false) ->
   returns (fun f => nextInitializedTickWithinOneWord f tick z ts)
     this (boundary z, false)).
Proof.
  intros Hts Hf Hp. injection Hp as <-. split.
  - intros k Hr.
    destruct (next_inv _ _ _ _ _ Hr)
      as (j & _ & _ & [(E & Hin & [info Hk]) | (E & _)]); [|discriminate].
    injection E as E. rewrite <- E in *. simpl in Hk.
    apply (fetched_lookup _ _ _ _ _ k info Hts Hf) in Hk.
    destruct Hk as (td & Hpt & Hi & _ & _ & Hw).
    split; [exact Hin|]. split; [eauto | exact Hw].
  - intros Hq Hnone. apply next_no_key_beyond; [exact Hq|].
    intros k [info Hk]. simpl in Hk.
    apply (fetched_lookup _ _ _ _ _ k info Hts Hf) in Hk.
    destruct Hk as (td & Hpt & Hi & _ & _ & Hw).
    destruct z.
    + destruct (Z_lt_le_dec k tick) as [Hlt|]; [|assumption].
      rewrite (Hnone k td Hw Hlt Hpt) in Hi. discriminate.
    + destruct (Z_lt_le_dec tick k) as [Hlt|]; [|assumption].
      rewrite (Hnone k td Hw Hlt Hpt) in Hi. discriminate.
Qed.

Lemma fetched_query_sees_window_only_witness :
  exists poolData this,
    fetchPoolData 30 examplePool true 10 = Some poolData /\
    providerOf poolData = Returned this /\
    returns (fun f => nextInitializedTickWithinOneWord f (-74940) false 60)
      this (MAX_TICK, false).
Proof.
  destruct (fetchPoolData 30 examplePool true 10) as [poolData|] eqn:Hf;
    [|vm_compute in Hf; discriminate].
  exists poolData, (mkProvider (pd_ticks poolData)).
  split; [reflexivity|]. split; [reflexivity|].
  apply (fetched_query_sees_window_only 30 examplePool true 10 poolData
           (mkProvider (pd_ticks poolData)) (-74940) false 60);
    [simpl; lia | exact Hf | reflexivity | lia |].
  intros k td _ Hlt. simpl.
  destruct (Z.eqb_spec k (-74940)); [lia|].
  destruct (Z.eqb_spec k (-75000)); [discriminate|].
  intros [= <-]. reflexivity.
Defined.

(** End to end: on the provider built from a fetched snapshot (spacing at
    least 1), [getTick] at a window tick that the contract reported
    initialized with [liquidityNet = n] returns the decimal string of [n]
    and ['0'], which read as the integers [n] and 0; at a tick whose call
    was rejected or reported "not initialized" it returns the zero
    record. *)
Theorem fetched_getTick_round_trip
    (fuel : nat) (pool : Pool) (zeroForOne : bool) (tickRange : Z)
    (poolData : PoolData) (this : ExampleTickDataProvider) (t : Z) :
  1 <= pool_tickSpacing pool ->
  fetchPoolData fuel pool zeroForOne tickRange = Some poolData ->
  providerOf poolData = Returned this ->
  (forall tickData,
     pool_ticks pool t = Some tickData ->
     oc_initialized tickData = true ->
     (pool_tickSpacing pool | t) ->
     pool_tick pool / pool_tickSpacing pool * pool_tickSpacing pool
       - tickRange * pool_tickSpacing pool <= t
       <= pool_tick pool / pool_tickSpacing pool * pool_tickSpacing pool
          + tickRange * pool_tickSpacing pool ->
     fst (getTick t this)
       = {| liquidityNet := JString (toString (oc_liquidityNet tickData));
            liquidityGross := JString "0" |} /\
     amounts (fst (getTick t this)) = Some (oc_liquidityNet tickData, 0)) /\
  ((pool_ticks pool t = None \/
    exists tickData,
      pool_ticks pool t = Some tickData /\ oc_initialized tickData = false) ->
   fst (getTick t this) = zeroTickInfo).
Proof.
  intros Hts Hf Hp. injection Hp as <-. split.
  - intros td Hpt Hi Hdiv Hw.
    assert (Hk : pd_ticks poolData !! t
                 = Some {| liquidityNet :=
                             JString (toString (oc_liquidityNet td));
                           liquidityGross := JUndefined |}).
    { apply (fetched_lookup _ _ _ _ _ t _ Hts Hf). exists td. auto. }
    rewrite getTick_run. simpl ticks. rewrite Hk. simpl opt_field.
    rewrite (js_or_truthy _ _ (toString_truthy _)).
    split; [reflexivity|].
    unfold amounts. simpl liquidityNet. simpl liquidityGross.
    rewrite amount_toString. reflexivity.
  - intros Hno. rewrite getTick_run. simpl ticks.
    destruct (pd_ticks poolData !! t) as [info|] eqn:Hk; [|reflexivity].
    exfalso. apply (fetched_lookup _ _ _ _ _ t info Hts Hf) in Hk.
    destruct Hk as (td & Hpt & Hi & _).
    destruct Hno as [Hn | (td' & Hpt' & Hi')]; congruence.
Qed.

Lemma fetched_getTick_round_trip_witness :
  exists poolData this,
    fetchPoolData 30 examplePool true 10 = Some poolData /\
    providerOf poolData = Returned this /\
    amounts (fst (getTick (-74940) this)) = Some (77, 0) /\
    fst (getTick (-75000) this) = zeroTickInfo.
Proof.
  destruct (fetchPoolData 30 examplePool true 10) as [poolData|] eqn:Hf;
    [|vm_compute in Hf; discriminate].
  exists poolData, (mkProvider (pd_ticks poolData)).
  split; [reflexivity|]. split; [reflexivity|].
  destruct (fetched_getTick_round_trip 30 examplePool true 10 poolData
              (mkProvider (pd_ticks poolData)) (-74940))
    as [Hyes _]; [simpl; lia | exact Hf | reflexivity |].
  destruct (fetched_getTick_round_trip 30 examplePool true 10 poolData
              (mkProvider (pd_ticks poolData)) (-75000))
    as [_ Hno]; [simpl; lia | exact Hf | reflexivity |].
  split.
  - apply (Hyes {| oc_liquidityNet := 77; oc_initialized := true |});
      [reflexivity | reflexivity | exists (-1249); reflexivity |].
    split; apply Z.leb_le; reflexivity.
  - apply Hno. left. reflexivity.
Defined.
